(** * llm-json-parser: the streaming JSON balancer of [src/index.ts]

    A shallow embedding of the two balancing passes ([balanceQuotes],
    [balanceBrackets]), of [validateAndBalance] and of the
    [StreamingJsonParser] session built on them, followed by the properties
    of the specification that are settled against that code. *)

From Stdlib Require Import List NArith ZArith Bool Ascii String Lia.
From Stdlib Require Import Permutation Sorted.
Import ListNotations.

Set Implicit Arguments.

(** ** Characters and strings

    A JavaScript string is a sequence of UTF-16 code units; [s[i]] and
    [s.length] work on code units, so a string is a list of them. *)

Definition char : Type := N.
Definition jsstring : Type := list char.

Module Ch.
Definition dquote : char := 34%N.     (* the double quote *)
Definition squote : char := 39%N.     (* ' *)
Definition comma : char := 44%N.      (* , *)
Definition colon : char := 58%N.      (* : *)
Definition lbracket : char := 91%N.   (* [ *)
Definition backslash : char := 92%N.  (* \ *)
Definition rbracket : char := 93%N.   (* ] *)
Definition backtick : char := 96%N.   (* ` *)
Definition lbrace : char := 123%N.    (* { *)
Definition rbrace : char := 125%N.    (* } *)
End Ch.

Definition char_eqb (a b : char) : bool := N.eqb a b.

Definition ochar_eqb (a : char) (b : option char) : bool :=
  match b with
  | Some b' => char_eqb a b'
  | None => false
  end.

(** [txt] writes a string constant.  In the constants of this file a
    backtick stands for the double quote character (U+0022); every other
    character stands for itself, a backslash included. *)
Definition txt (s : string) : jsstring :=
  map (fun a => let c := N_of_ascii a in
                if char_eqb c Ch.backtick then Ch.dquote else c)
      (list_ascii_of_string s).

(** [char.trim() !== ''] on a one-unit string: false exactly on the code
    units that [String.prototype.trim] strips (WhiteSpace and
    LineTerminator of ECMAScript). *)
Definition isWhitespace (c : char) : bool :=
  ((9 <=? c) && (c <=? 13) || (c =? 32) || (c =? 160) || (c =? 5760)
   || (8192 <=? c) && (c <=? 8202) || (c =? 8232) || (c =? 8233)
   || (c =? 8239) || (c =? 8287) || (c =? 12288) || (c =? 65279))%N.

Definition isQuote (c : char) : bool :=
  char_eqb c Ch.dquote || char_eqb c Ch.squote.

(** ** Configuration *)

Inductive QuoteType : Type := Double | Single | Both.

(** [dummyValues].  The declared type of the [null] entry is [null], whose
    only inhabitant is the default; [dv_null = None] is that value, and
    [Some l] stands for a literal [l] handed in by an untyped caller. The
    number entry is kept as the text of its literal. *)
Record DummyValues : Type := {
  dv_string : option jsstring;
  dv_number : option jsstring;
  dv_boolean : option bool;
  dv_null : option jsstring
}.

(** The caller's [JsonParserConfig]: every field optional. *)
Record JsonParserConfig : Type := {
  opt_balanceQuotes : option bool;
  opt_quoteType : option QuoteType;
  opt_returnParsedJson : option bool;
  opt_dummyValues : option DummyValues
}.

(** [Required<JsonParserConfig>], as the parser holds it. *)
Record Config : Type := {
  cfg_balanceQuotes : bool;
  cfg_quoteType : QuoteType;
  cfg_returnParsedJson : bool;
  cfg_dummyValues : DummyValues
}.

Definition DEFAULT_CONFIG : Config := {|
  cfg_balanceQuotes := true;
  cfg_quoteType := Both;
  cfg_returnParsedJson := false;
  cfg_dummyValues := {|
    dv_string := Some [Ch.dquote; Ch.dquote];
    dv_number := Some (txt "0");
    dv_boolean := Some false;
    dv_null := None
  |}
|}.

Definition empty_config : JsonParserConfig := {|
  opt_balanceQuotes := None;
  opt_quoteType := None;
  opt_returnParsedJson := None;
  opt_dummyValues := None
|}.

(** The object spread [{ ...base, ...config }]: a field present in
    [config] replaces the one of [base], whole. *)
Definition mergeConfig (base : Config) (config : JsonParserConfig) : Config := {|
  cfg_balanceQuotes := match opt_balanceQuotes config with Some b => b | None => cfg_balanceQuotes base end;
  cfg_quoteType := match opt_quoteType config with Some q => q | None => cfg_quoteType base end;
  cfg_returnParsedJson := match opt_returnParsedJson config with Some b => b | None => cfg_returnParsedJson base end;
  cfg_dummyValues := match opt_dummyValues config with Some d => d | None => cfg_dummyValues base end
|}.

(** ** Records of synthetic insertions *)

Inductive DummyType : Type := Quote | Bracket | Value.

Record Dummy : Type := {
  position : Z;
  value : jsstring;
  type : DummyType
}.

Record BalanceResult : Type := {
  balanced : jsstring;
  dummyValues : list Dummy
}.

Definition len (s : jsstring) : Z := Z.of_nat (List.length s).

(** ** Pass 1: [balanceQuotes] *)

Record QuoteState : Type := {
  inString : bool;
  stringChar : option char;   (* [None] is the empty string [''] *)
  escaped : bool
}.

Definition quoteInit : QuoteState :=
  {| inString := false; stringChar := None; escaped := false |}.

(** One iteration of the loop of [balanceQuotes]. *)
Definition quoteStep (qt : QuoteType) (st : QuoteState) (c : char) : QuoteState :=
  if escaped st then
    {| inString := inString st; stringChar := stringChar st; escaped := false |}
  else if char_eqb c Ch.backslash then
    {| inString := inString st; stringChar := stringChar st; escaped := true |}
  else
    let shouldProcessQuote :=
      match qt with
      | Both => true
      | Double => char_eqb c Ch.dquote
      | Single => char_eqb c Ch.squote
      end in
    if shouldProcessQuote && isQuote c then
      if negb (inString st) then
        {| inString := true; stringChar := Some c; escaped := false |}
      else if ochar_eqb c (stringChar st) then
        {| inString := false; stringChar := None; escaped := false |}
      else st
    else st.

Definition quoteScan (qt : QuoteType) (input : jsstring) : QuoteState :=
  fold_left (quoteStep qt) input quoteInit.

Definition balanceQuotes (cfg : Config) (input : jsstring) : BalanceResult :=
  let st := quoteScan (cfg_quoteType cfg) input in
  match inString st, stringChar st with
  | true, Some q =>
      let result := input ++ [q] in
      {| balanced := result;
         dummyValues := [ {| position := len result - 1; value := [q]; type := Quote |} ] |}
  | _, _ => {| balanced := input; dummyValues := [] |}
  end.

(** ** Pass 2: [balanceBrackets] *)

Record BracketState : Type := {
  stack : list char;                    (* top of the stack first *)
  strState : QuoteState;                (* [inString], [stringChar], [escaped] *)
  lastNonWhitespaceChar : option char;  (* [None] is [''] *)
  lastNonWhitespaceIndex : Z
}.

Definition bracketInit : BracketState :=
  {| stack := [];
     strState := quoteInit;
     lastNonWhitespaceChar := None;
     lastNonWhitespaceIndex := (-1)%Z |}.

Definition closerOf (c : char) : char :=
  if char_eqb c Ch.lbrace then Ch.rbrace else Ch.rbracket.

(** The effect of one character on the stack, outside a string. *)
Definition stackStep (stk : list char) (c : char) : list char :=
  if char_eqb c Ch.lbrace || char_eqb c Ch.lbracket then closerOf c :: stk
  else if char_eqb c Ch.rbrace || char_eqb c Ch.rbracket then
    match stk with
    | top :: rest => if char_eqb top c then rest else stk
    | [] => stk
    end
  else stk.

(** One iteration of the scanning loop of [balanceBrackets], at index [i]. *)
Definition bracketStep (i : Z) (st : BracketState) (c : char) : BracketState :=
  let q := strState st in
  if escaped q then
    {| stack := stack st;
       strState := {| inString := inString q; stringChar := stringChar q; escaped := false |};
       lastNonWhitespaceChar := lastNonWhitespaceChar st;
       lastNonWhitespaceIndex := lastNonWhitespaceIndex st |}
  else if char_eqb c Ch.backslash then
    {| stack := stack st;
       strState := {| inString := inString q; stringChar := stringChar q; escaped := true |};
       lastNonWhitespaceChar := lastNonWhitespaceChar st;
       lastNonWhitespaceIndex := lastNonWhitespaceIndex st |}
  else
    let q' :=
      if isQuote c && negb (inString q) then
        {| inString := true; stringChar := Some c; escaped := false |}
      else if ochar_eqb c (stringChar q) && inString q then
        {| inString := false; stringChar := None; escaped := false |}
      else q in
    if negb (inString q') then
      {| stack := stackStep (stack st) c;
         strState := q';
         lastNonWhitespaceChar :=
           if negb (isWhitespace c) then Some c else lastNonWhitespaceChar st;
         lastNonWhitespaceIndex :=
           if negb (isWhitespace c) then i else lastNonWhitespaceIndex st |}
    else
      {| stack := stack st;
         strState := q';
         lastNonWhitespaceChar := lastNonWhitespaceChar st;
         lastNonWhitespaceIndex := lastNonWhitespaceIndex st |}.

Fixpoint bracketScanFrom (i : Z) (st : BracketState) (s : jsstring) : BracketState :=
  match s with
  | [] => st
  | c :: rest => bracketScanFrom (i + 1) (bracketStep i st c) rest
  end.

Definition bracketScan (input : jsstring) : BracketState :=
  bracketScanFrom 0 bracketInit input.

(** The closing loop: pop, append, record, until the stack is empty. *)
Fixpoint closeRemaining (stk : list char) (result : jsstring) (dummies : list Dummy)
  : BalanceResult :=
  match stk with
  | [] => {| balanced := result; dummyValues := dummies |}
  | closingBracket :: rest =>
      let result' := result ++ [closingBracket] in
      closeRemaining rest result'
        (dummies ++ [ {| position := len result' - 1;
                         value := [closingBracket];
                         type := Bracket |} ])
  end.

Definition isEmpty {A : Type} (l : list A) : bool :=
  match l with [] => true | _ => false end.

Definition balanceBrackets (input : jsstring) : BalanceResult :=
  let st := bracketScan input in
  let last := lastNonWhitespaceChar st in
  let needsValue :=
    ochar_eqb Ch.colon last || ochar_eqb Ch.lbracket last || ochar_eqb Ch.comma last in
  let '(result, dummies) :=
    if needsValue && negb (isEmpty (stack st)) then
      if ochar_eqb Ch.colon last then
        let result := input ++ txt "null" in
        (result, [ {| position := len result - 4; value := txt "null"; type := Value |} ])
      else (input, [])   (* after [[] or [,]: nothing to add, just close *)
    else (input, []) in
  closeRemaining (stack st) result dummies.

(** ** [validateAndBalance] *)

Definition validateAndBalance (cfg : Config) (input : jsstring) : BalanceResult :=
  if isEmpty input then {| balanced := []; dummyValues := [] |}
  else
    let quoteResult :=
      if cfg_balanceQuotes cfg then balanceQuotes cfg input
      else {| balanced := input; dummyValues := [] |} in
    let bracketResult := balanceBrackets (balanced quoteResult) in
    {| balanced := balanced bracketResult;
       dummyValues := dummyValues quoteResult ++ dummyValues bracketResult |}.

(** ** The host: exceptions, the JSON decoder, the console *)

Inductive exn : Type :=
| ErrorObject (message : jsstring)   (* an instance of [Error] *)
| Thrown.                            (* any other thrown value *)

Inductive completion (A : Type) : Type :=
| Normal (a : A)
| Throw (e : exn).

Arguments Throw {A} e.

(** One call [console.warn(label, detail)]. *)
Definition LogLine : Type := (jsstring * jsstring)%type.

(** ** Helpers of the session: [endsWith], [slice], [sort] *)

Fixpoint jsstring_eqb (a b : jsstring) : bool :=
  match a, b with
  | [], [] => true
  | x :: a', y :: b' => char_eqb x y && jsstring_eqb a' b'
  | _, _ => false
  end.

(** [s.endsWith(v)] *)
Definition endsWith (s v : jsstring) : bool :=
  (List.length v <=? List.length s)%nat
  && jsstring_eqb (skipn (List.length s - List.length v) s) v.

(** [s.slice(0, -n)]: [-0] is [0], so for [n = 0] the slice is empty. *)
Definition sliceOffEnd (s : jsstring) (n : nat) : jsstring :=
  match n with
  | O => []
  | _ => firstn (List.length s - n) s
  end.

(** [[...dummies].sort((a, b) => b.position - a.position)]: the sort is
    stable, so it yields the one arrangement by descending position that
    keeps records of equal position in their order. *)
Fixpoint insertByPosition (d : Dummy) (l : list Dummy) : list Dummy :=
  match l with
  | [] => [d]
  | e :: rest =>
      if (position d <? position e)%Z then e :: insertByPosition d rest
      else d :: l
  end.

Definition sortedDummies (l : list Dummy) : list Dummy :=
  fold_right insertByPosition [] l.

(** The body of the retraction loop. *)
Definition retractStep (baseData : jsstring) (dummy : Dummy) : jsstring :=
  if endsWith baseData (value dummy)
  then sliceOffEnd baseData (List.length (value dummy))
  else baseData.

Definition retractDummies (baseData : jsstring) (dummies : list Dummy) : jsstring :=
  if negb (isEmpty dummies)
  then fold_left retractStep (sortedDummies dummies) baseData
  else baseData.

(** ** The class [StreamingJsonParser] *)

Section Session.

(** Structured values ([any]), their [null], and [JSON.parse], which
    returns a value or throws. *)
Variable jsvalue : Type.
Variable js_null : jsvalue.
Variable JSON_parse : jsstring -> completion jsvalue.

(** What [appendChunk] and [getCurrentData] hand back: [any | string]. *)
Inductive data : Type :=
| Parsed (v : jsvalue)
| Text (s : jsstring).

Record StreamingJsonParser : Type := {
  config : Config;
  lastParsedData : jsvalue;
  lastBalancedString : jsstring;
  addedDummyValues : list Dummy
}.

(** Methods run on the object, may throw, and may write to the console. *)
Definition M (A : Type) : Type :=
  StreamingJsonParser -> completion A * StreamingJsonParser * list LogLine.

Definition ret {A} (a : A) : M A := fun this => (Normal a, this, []).

Definition bind {A B} (m : M A) (k : A -> M B) : M B :=
  fun this =>
    match m this with
    | (Normal a, this', w) =>
        let '(r, this'', w') := k a this' in (r, this'', w ++ w')
    | (Throw e, this', w) => (Throw e, this', w)
    end.

Definition tryCatch {A} (m : M A) (handler : exn -> M A) : M A :=
  fun this =>
    match m this with
    | (Throw e, this', w) =>
        let '(r, this'', w') := handler e this' in (r, this'', w ++ w')
    | done => done
    end.

Definition lift {A} (c : completion A) : M A := fun this => (c, this, []).

Definition get : M StreamingJsonParser := fun this => (Normal this, this, []).

Definition console_warn (label detail : jsstring) : M unit :=
  fun this => (Normal tt, this, [(label, detail)]).

Definition set_config (c : Config) : M unit :=
  fun this => (Normal tt,
               {| config := c;
                  lastParsedData := lastParsedData this;
                  lastBalancedString := lastBalancedString this;
                  addedDummyValues := addedDummyValues this |}, []).

Definition set_lastParsedData (v : jsvalue) : M unit :=
  fun this => (Normal tt,
               {| config := config this;
                  lastParsedData := v;
                  lastBalancedString := lastBalancedString this;
                  addedDummyValues := addedDummyValues this |}, []).

Definition set_lastBalancedString (s : jsstring) : M unit :=
  fun this => (Normal tt,
               {| config := config this;
                  lastParsedData := lastParsedData this;
                  lastBalancedString := s;
                  addedDummyValues := addedDummyValues this |}, []).

Definition set_addedDummyValues (l : list Dummy) : M unit :=
  fun this => (Normal tt,
               {| config := config this;
                  lastParsedData := lastParsedData this;
                  lastBalancedString := lastBalancedString this;
                  addedDummyValues := l |}, []).

Notation "x <- m ;; k" := (bind m (fun x => k))
  (at level 61, m at next level, right associativity).
Notation "m ;; k" := (bind m (fun _ => k))
  (at level 61, right associativity).

(** [new StreamingJsonParser(config)] *)
Definition newParser (cfg : JsonParserConfig) : StreamingJsonParser :=
  {| config := mergeConfig DEFAULT_CONFIG cfg;
     lastParsedData := js_null;
     lastBalancedString := [];
     addedDummyValues := [] |}.

Definition updateConfig (cfg : JsonParserConfig) : M unit :=
  this <- get ;;
  set_config (mergeConfig (config this) cfg).

Definition errorMessage (error : exn) : jsstring :=
  match error with
  | ErrorObject message => message
  | Thrown => txt "Unknown error"
  end.

Definition appendChunk (chunk : jsstring) : M data :=
  this <- get ;;
  (if isEmpty (lastBalancedString this) then
     let balancedResult := validateAndBalance (config this) chunk in
     set_lastBalancedString (balanced balancedResult) ;;
     set_addedDummyValues (dummyValues balancedResult)
   else
     let baseData :=
       retractDummies (lastBalancedString this) (addedDummyValues this) in
     let newInput := baseData ++ chunk in
     set_addedDummyValues [] ;;
     let balancedResult := validateAndBalance (config this) newInput in
     set_lastBalancedString (balanced balancedResult) ;;
     set_addedDummyValues (dummyValues balancedResult)) ;;
  this <- get ;;
  if cfg_returnParsedJson (config this) then
    tryCatch
      (parsed <- lift (JSON_parse (lastBalancedString this)) ;;
       set_lastParsedData parsed ;;
       ret (Parsed parsed))
      (fun error =>
         console_warn (txt "JSON parsing failed, returning balanced string:")
                      (errorMessage error) ;;
         console_warn (txt "Attempted to parse:") (lastBalancedString this) ;;
         ret (Text (lastBalancedString this)))
  else ret (Text (lastBalancedString this)).

Definition reset : M unit :=
  set_lastParsedData js_null ;;
  set_lastBalancedString [] ;;
  set_addedDummyValues [].

Definition getCurrentData : M data :=
  this <- get ;;
  if cfg_returnParsedJson (config this)
  then ret (Parsed (lastParsedData this))
  else ret (Text (lastBalancedString this)).

(** Reading off a run of a method. *)
Definition resultOf {A} (r : completion A * StreamingJsonParser * list LogLine)
  : completion A := fst (fst r).
Definition parserOf {A} (r : completion A * StreamingJsonParser * list LogLine)
  : StreamingJsonParser := snd (fst r).
Definition warningsOf {A} (r : completion A * StreamingJsonParser * list LogLine)
  : list LogLine := snd r.

(** [validateStreamingJson(input, config)], the one-shot operation. *)
Definition validateStreamingJson (input : jsstring) (cfg : JsonParserConfig)
  : completion data * list LogLine :=
  let r := appendChunk input (newParser cfg) in (resultOf r, warningsOf r).

(** The parsers a caller can get hold of: a fresh one, and whatever the
    public methods make of one. *)
Inductive reachable : StreamingJsonParser -> Prop :=
| reach_new cfg : reachable (newParser cfg)
| reach_appendChunk p chunk :
    reachable p -> reachable (parserOf (appendChunk chunk p))
| reach_reset p : reachable p -> reachable (parserOf (reset p))
| reach_updateConfig p cfg :
    reachable p -> reachable (parserOf (updateConfig cfg p))
| reach_getCurrentData p :
    reachable p -> reachable (parserOf (getCurrentData p)).

End Session.

Arguments Text {jsvalue} s.
Arguments Parsed {jsvalue} v.

(** A small decoder to run the session with: it knows the three literal
    names of JSON and throws a [SyntaxError] on any other text. *)
Inductive literalValue : Type := LNull | LTrue | LFalse.

Definition parseLiteral (s : jsstring) : completion literalValue :=
  if jsstring_eqb s (txt "null") then Normal LNull
  else if jsstring_eqb s (txt "true") then Normal LTrue
  else if jsstring_eqb s (txt "false") then Normal LFalse
  else Throw (ErrorObject (txt "Unexpected token")).

(** ** The rest of the interface, and its use by callers *)

(** [createStreamingParser(config)] *)
Definition createStreamingParser {jsvalue : Type} (js_null : jsvalue)
  (cfg : JsonParserConfig) : StreamingJsonParser jsvalue :=
  newParser js_null cfg.

(** [chunks.forEach(chunk => parser.appendChunk(chunk))], the loop of the
    callers: the parser after the chunks have been appended in order. *)
Definition appendChunks {jsvalue : Type}
  (JSON_parse : jsstring -> completion jsvalue)
  (p : StreamingJsonParser jsvalue) (chunks : list jsstring)
  : StreamingJsonParser jsvalue :=
  fold_left (fun p chunk => parserOf (appendChunk JSON_parse chunk p)) chunks p.

(** * The vocabulary of the properties *)

(** ** Characters and scans *)

Definition isCloser (c : char) : bool :=
  char_eqb c Ch.rbrace || char_eqb c Ch.rbracket.

(** The records the closing loop makes for the closers [stk], the first of
    which lands at offset [start]. *)
Fixpoint bracketRecords (start : Z) (stk : list char) : list Dummy :=
  match stk with
  | [] => []
  | c :: rest =>
      {| position := start; value := [c]; type := Bracket |}
        :: bracketRecords (start + 1) rest
  end.

(** What the string state of either scan always satisfies: inside a
    string the opening quote is remembered, outside nothing is. *)
Definition strInv (q : QuoteState) : Prop :=
  match inString q, stringChar q with
  | true, Some c => isQuote c = true
  | false, None => True
  | _, _ => False
  end.

(** The part of the bracket scan that decides the structure: the stack
    and the string state.  The record of the last significant character
    never feeds back into them, so they can be followed on their own. *)
Definition Structure : Type := (list char * QuoteState)%type.

Definition coreStep (p : Structure) (c : char) : Structure :=
  let st := bracketStep 0 {| stack := fst p; strState := snd p;
                             lastNonWhitespaceChar := None;
                             lastNonWhitespaceIndex := 0 |} c in
  (stack st, strState st).

Definition structureOf (s : jsstring) : Structure :=
  fold_left coreStep s ([], quoteInit).

(** The string states met inside a string opened by [q]. *)
Definition inside (q : char) : QuoteState :=
  {| inString := true; stringChar := Some q; escaped := false |}.
Definition insideEscaped (q : char) : QuoteState :=
  {| inString := true; stringChar := Some q; escaped := true |}.

(** A character with no structural role. *)
Definition isPlain (c : char) : bool :=
  negb (char_eqb c Ch.backslash || isQuote c
        || char_eqb c Ch.lbrace || char_eqb c Ch.lbracket
        || char_eqb c Ch.rbrace || char_eqb c Ch.rbracket).

(** Scanned as the bracket pass scans, the text leaves no opener on the
    stack and ends outside any string. *)
Definition structurallyClosed (s : jsstring) : Prop :=
  stack (bracketScan s) = [] /\ inString (strState (bracketScan s)) = false.

(** A text ends in a pending escape when the run of backslashes at its
    very end has odd length: its last backslash then escapes whatever is
    appended next. *)
Fixpoint leadingBackslashes (s : jsstring) : nat :=
  match s with
  | c :: rest => if char_eqb c Ch.backslash then S (leadingBackslashes rest) else O
  | [] => O
  end.

Definition trailingBackslashes (s : jsstring) : nat :=
  leadingBackslashes (rev s).

Definition endsInEscape (s : jsstring) : bool :=
  Nat.odd (trailingBackslashes s).

(** ** The session *)

(** The text handed to the balancer by [appendChunk]. *)
Definition newInput {jsvalue : Type} (p : StreamingJsonParser jsvalue)
  (chunk : jsstring) : jsstring :=
  if isEmpty (lastBalancedString p) then chunk
  else retractDummies (lastBalancedString p) (addedDummyValues p) ++ chunk.

(** The parser once the first half of [appendChunk] has run. *)
Definition rebalanced {jsvalue : Type} (p : StreamingJsonParser jsvalue) (chunk : jsstring)
  : StreamingJsonParser jsvalue :=
  let balancedResult := validateAndBalance (config p) (newInput p chunk) in
  {| config := config p;
     lastParsedData := lastParsedData p;
     lastBalancedString := balanced balancedResult;
     addedDummyValues := dummyValues balancedResult |}.

(** The two warnings of the [catch] branch of [appendChunk]. *)
Definition parseWarnings (error : exn) (text : jsstring) : list LogLine :=
  [ (txt "JSON parsing failed, returning balanced string:", errorMessage error);
    (txt "Attempted to parse:", text) ].

(** ** Insertions *)

(** The shape of every record the balancer makes. *)
Definition dummyShape (d : Dummy) : Prop :=
  match type d with
  | Quote => exists c, value d = [c] /\ isQuote c = true
  | Bracket => exists c, value d = [c] /\ isCloser c = true
  | Value => value d = txt "null"
  end.

(** The configuration [cfg] with another [dummyValues] table. *)
Definition withDummyValues (dv : DummyValues) (cfg : Config) : Config :=
  {| cfg_balanceQuotes := cfg_balanceQuotes cfg;
     cfg_quoteType := cfg_quoteType cfg;
     cfg_returnParsedJson := cfg_returnParsedJson cfg;
     cfg_dummyValues := dv |}.

(** C4 as the specification words it: a [value] insertion carries the
    literal configured in [dummyValues.null]. *)
Definition injectsConfiguredNull (cfg : Config) (input : jsstring) : Prop :=
  forall lit d,
    dv_null (cfg_dummyValues cfg) = Some lit ->
    In d (dummyValues (validateAndBalance cfg input)) ->
    type d = Value ->
    value d = lit.

(** A double quote appended to any text leaves the scan as much inside or
    outside a string as it was. *)
Definition dquoteInert (scan : jsstring -> QuoteState) : Prop :=
  forall s, inString (scan (s ++ [Ch.dquote])) = inString (scan s).

(** ** Retraction *)

(** Removing a literal from the end of a text, in the words of the
    specification: the text gives up the literal when it ends with exactly
    that literal, and is otherwise left as it is. *)
Inductive retracted (lit : jsstring) : jsstring -> jsstring -> Prop :=
| retracted_suffix base : retracted lit (base ++ lit) base
| retracted_kept text : (forall base, text <> base ++ lit) -> retracted lit text text.

(** The same for a sequence of recorded insertions, one after the other. *)
Inductive retractedAll : list Dummy -> jsstring -> jsstring -> Prop :=
| retractedAll_nil text : retractedAll [] text text
| retractedAll_cons d ds text mid final :
    retracted (value d) text mid ->
    retractedAll ds mid final ->
    retractedAll (d :: ds) text final.

(** From the highest recorded position to the lowest. *)
Definition byPositionDescending : list Dummy -> Prop :=
  StronglySorted (fun a b => (position b <= position a)%Z).

(** What holds of the insertions a reachable parser remembers: each is a
    record the balancer made, and none is kept along with an empty text. *)
Definition sessionInv {jsvalue : Type} (p : StreamingJsonParser jsvalue) : Prop :=
  Forall dummyShape (addedDummyValues p)
  /\ (lastBalancedString p = [] -> addedDummyValues p = []).

(** ** Closed text *)

(** The inside of a string opened by [q]: characters other than [q] and
    the backslash, and backslash escapes of any character. *)
Inductive StringBody (q : char) : jsstring -> Prop :=
| body_end : StringBody q []
| body_char c s :
    c <> q -> c <> Ch.backslash -> StringBody q s -> StringBody q (c :: s)
| body_escape c s :
    StringBody q s -> StringBody q (Ch.backslash :: c :: s).

(** Text in which every quote and every bracket is closed: plain
    characters, whole strings, and brace or bracket pairs around such text.
    The grammar of JSON produces texts of this form only. *)
Inductive StructurallyValid : jsstring -> Prop :=
| valid_empty : StructurallyValid []
| valid_plain c s :
    isPlain c = true -> StructurallyValid s -> StructurallyValid (c :: s)
| valid_string q body s :
    isQuote q = true -> StringBody q body -> StructurallyValid s ->
    StructurallyValid (q :: body ++ q :: s)
| valid_object inner s :
    StructurallyValid inner -> StructurallyValid s ->
    StructurallyValid (Ch.lbrace :: inner ++ Ch.rbrace :: s)
| valid_array inner s :
    StructurallyValid inner -> StructurallyValid s ->
    StructurallyValid (Ch.lbracket :: inner ++ Ch.rbracket :: s).

(** ** Sample sessions, run with the decoder [parseLiteral] *)

(** The caller's configuration [{ returnParsedJson: true }]. *)
Definition parsingConfig : JsonParserConfig :=
  {| opt_balanceQuotes := None;
     opt_quoteType := None;
     opt_returnParsedJson := Some true;
     opt_dummyValues := None |}.

(** Feeding a parser a list of chunks, first to last. *)
Definition feed (p : StreamingJsonParser literalValue) (chunks : list jsstring)
  : StreamingJsonParser literalValue :=
  fold_left (fun p chunk => parserOf (appendChunk parseLiteral chunk p)) chunks p.

(** A parser that has taken the chunk [{`a`:] and answered [{`a`:null}]. *)
Definition afterColon : StreamingJsonParser literalValue :=
  feed (newParser LNull empty_config) [ txt "{`a`:" ].

(** A parser that decodes, and has decoded the chunk [true]. *)
Definition afterTrue : StreamingJsonParser literalValue :=
  feed (newParser LNull parsingConfig) [ txt "true" ].

(** ** Layout of the insertions *)

(** The text of a sequence of insertions, in the order of the records. *)
Definition insertedText (ds : list Dummy) : jsstring :=
  List.concat (map value ds).

(** The records lie one after the other from offset [start] on: each
    position is where the previous literal ended. *)
Fixpoint laidOutFrom (start : Z) (ds : list Dummy) : Prop :=
  match ds with
  | [] => True
  | d :: rest =>
      position d = start /\ laidOutFrom (start + len (value d)) rest
  end.

(** [s.substr(pos, n)] for an offset within the string. *)
Definition substringAt (s : jsstring) (pos : Z) (n : nat) : jsstring :=
  firstn n (skipn (Z.to_nat pos) s).

Definition positionsAscending : list Dummy -> Prop :=
  StronglySorted (fun a b => (position a < position b)%Z).

(** The record of the value literal [v], if there is one. *)
Definition valueRecords (start : Z) (v : jsstring) : list Dummy :=
  match v with
  | [] => []
  | _ => [ {| position := start; value := v; type := Value |} ]
  end.

(** What the quote pass appends, read off the state its scan ends in, and
    the record it makes of it. *)
Definition quoteFor (st : QuoteState) : jsstring :=
  match inString st, stringChar st with
  | true, Some q => [q]
  | _, _ => []
  end.

Definition quoteRecords (start : Z) (q : jsstring) : list Dummy :=
  match q with
  | [] => []
  | _ => [ {| position := start; value := q; type := Quote |} ]
  end.

(** What the bracket pass appends, read off the state its scan ends in. *)
Definition valueFor (st : BracketState) : jsstring :=
  if negb (isEmpty (stack st)) && ochar_eqb Ch.colon (lastNonWhitespaceChar st)
  then txt "null" else [].

(** Two states of the bracket scan that differ at most in the index of the
    last significant character (which nothing reads). *)
Definition agree (a b : BracketState) : Prop :=
  stack a = stack b
  /\ strState a = strState b
  /\ lastNonWhitespaceChar a = lastNonWhitespaceChar b.

(** The string state of the quote pass under [qt]: inside a string the
    remembered quote is one that [qt] lets the pass process. *)
Definition processes (qt : QuoteType) (c : char) : bool :=
  match qt with
  | Both => isQuote c
  | Double => char_eqb c Ch.dquote
  | Single => char_eqb c Ch.squote
  end.

Definition strInvFor (qt : QuoteType) (q : QuoteState) : Prop :=
  match inString q, stringChar q with
  | true, Some c => processes qt c = true
  | false, None => True
  | _, _ => False
  end.

(** ** Truncated documents *)

Definition isOpener (c : char) : bool :=
  char_eqb c Ch.lbrace || char_eqb c Ch.lbracket.

(** [OpenDocument t closers]: [t] is closed text in which openers have
    been left unmatched, each followed by closed text; [closers] are the
    closers those openers call for, innermost first. *)
Inductive OpenDocument : jsstring -> list char -> Prop :=
| open_none t : StructurallyValid t -> OpenDocument t []
| open_more t closers o inner :
    OpenDocument t closers ->
    isOpener o = true ->
    StructurallyValid inner ->
    OpenDocument (t ++ o :: inner) (closerOf o :: closers).

(** A document cut short: outside any string, or inside a string, after a
    whole character or a whole backslash escape. *)
Inductive Truncated : jsstring -> Prop :=
| cut_outside t closers : OpenDocument t closers -> Truncated t
| cut_inside t closers q body :
    OpenDocument t closers ->
    isQuote q = true ->
    StringBody q body ->
    Truncated (t ++ q :: body).

(** * Properties *)

(** ** The balancer on the examples of its tests *)

Example balance_colon :
  balanced (validateAndBalance DEFAULT_CONFIG (txt "{`name`: `test`, `value`:"))
  = txt "{`name`: `test`, `value`:null}".
Proof. vm_compute. reflexivity. Qed.

Example balance_nested :
  balanced (validateAndBalance DEFAULT_CONFIG
     (txt "{`data`: {`users`: [{`name`: `John`, `contacts`: [{`type`: `email`"))
  = txt "{`data`: {`users`: [{`name`: `John`, `contacts`: [{`type`: `email`}]}]}}".
Proof. vm_compute. reflexivity. Qed.

Example balance_escaped_tail :
  balanced (validateAndBalance DEFAULT_CONFIG (txt "{`text`: `He said \`Hello\"))
  = txt "{`text`: `He said \`Hello\`null}".
Proof. vm_compute. reflexivity. Qed.

Example balance_without_quote_pass :
  balanced (validateAndBalance
              {| cfg_balanceQuotes := false; cfg_quoteType := Both;
                 cfg_returnParsedJson := false;
                 cfg_dummyValues := cfg_dummyValues DEFAULT_CONFIG |}
              (txt "{`message`: `test"))
  = txt "{`message`: `testnull}".
Proof. vm_compute. reflexivity. Qed.

Example balance_single_quotes :
  balanced (validateAndBalance
              {| cfg_balanceQuotes := true; cfg_quoteType := Single;
                 cfg_returnParsedJson := false;
                 cfg_dummyValues := cfg_dummyValues DEFAULT_CONFIG |}
              (txt "{'message': 'incomplete"))
  = txt "{'message': 'incomplete'}".
Proof. vm_compute. reflexivity. Qed.

(** A trailing comma stays where it is; the closers follow it. *)
Example balance_trailing_comma :
  validateAndBalance DEFAULT_CONFIG (txt "{`items`: [1, 2, 3,")
  = {| balanced := txt "{`items`: [1, 2, 3,]}";
       dummyValues :=
         [ {| position := 19; value := [Ch.rbracket]; type := Bracket |};
           {| position := 20; value := [Ch.rbrace]; type := Bracket |} ] |}.
Proof. vm_compute. reflexivity. Qed.

(** ** Characters *)

Lemma char_eqb_eq (a b : char) : char_eqb a b = true <-> a = b.
Proof. apply N.eqb_eq. Qed.

Lemma char_eqb_refl (a : char) : char_eqb a a = true.
Proof. apply N.eqb_refl. Qed.

Lemma jsstring_eqb_eq (a b : jsstring) : jsstring_eqb a b = true <-> a = b.
Proof.
  revert b. induction a as [|x a IH]; intros [|y b]; simpl; split;
    try congruence; try reflexivity.
  - intros H. apply andb_true_iff in H as [Hx Ha].
    apply char_eqb_eq in Hx. apply IH in Ha. congruence.
  - intros H. injection H as -> ->.
    rewrite char_eqb_refl. simpl. apply IH. reflexivity.
Qed.

(** A quote character is neither a backslash, nor a bracket, nor
    whitespace; likewise for the closers. *)
Lemma isQuote_cases (c : char) :
  isQuote c = true -> c = Ch.dquote \/ c = Ch.squote.
Proof.
  unfold isQuote. intros H. apply orb_true_iff in H as [H|H];
    apply char_eqb_eq in H; auto.
Qed.

Lemma isCloser_cases (c : char) :
  isCloser c = true -> c = Ch.rbrace \/ c = Ch.rbracket.
Proof.
  unfold isCloser. intros H. apply orb_true_iff in H as [H|H];
    apply char_eqb_eq in H; auto.
Qed.

Lemma closerOf_isCloser (c : char) : isCloser (closerOf c) = true.
Proof. unfold closerOf. destruct (char_eqb c Ch.lbrace); reflexivity. Qed.

(** ** The closing loop *)

Lemma len_app (a b : jsstring) : len (a ++ b) = (len a + len b)%Z.
Proof. unfold len. rewrite length_app. lia. Qed.

Lemma closeRemaining_eq (stk : list char) :
  forall result dummies,
    closeRemaining stk result dummies
    = {| balanced := result ++ stk;
         dummyValues := dummies ++ bracketRecords (len result) stk |}.
Proof.
  induction stk as [|c rest IH]; intros result dummies; simpl.
  - rewrite !app_nil_r. reflexivity.
  - rewrite IH. rewrite <- !app_assoc. simpl.
    rewrite len_app. unfold len at 2. simpl.
    replace (len result + 1 - 1)%Z with (len result) by lia.
    reflexivity.
Qed.

(** ** The scans *)

Lemma strInv_init : strInv quoteInit.
Proof. exact I. Qed.

Lemma quoteStep_inv (qt : QuoteType) (q : QuoteState) (c : char) :
  strInv q -> strInv (quoteStep qt q c).
Proof.
  unfold strInv, quoteStep. destruct q as [ins sc esc]; simpl.
  destruct esc; simpl; [tauto|].
  destruct (char_eqb c Ch.backslash); simpl; [tauto|].
  destruct (_ && isQuote c) eqn:E; simpl; [|tauto].
  apply andb_true_iff in E as [_ Hq].
  destruct ins; simpl; [|tauto].
  destruct sc as [s|]; simpl; [|tauto].
  destruct (char_eqb c s); simpl; tauto.
Qed.

Lemma quoteScan_inv_from (qt : QuoteType) (s : jsstring) :
  forall q, strInv q -> strInv (fold_left (quoteStep qt) s q).
Proof.
  induction s as [|c s IH]; intros q Hq; simpl; [exact Hq|].
  apply IH, quoteStep_inv, Hq.
Qed.

Lemma quoteScan_inv (qt : QuoteType) (s : jsstring) : strInv (quoteScan qt s).
Proof. apply quoteScan_inv_from, strInv_init. Qed.

(** Outside a string and with no escape pending, the string state is the
    initial one. *)
Lemma strInv_outside (q : QuoteState) :
  strInv q -> inString q = false -> escaped q = false -> q = quoteInit.
Proof.
  unfold strInv. destruct q as [ins sc esc]; simpl. intros H -> ->.
  destruct sc; [contradiction | reflexivity].
Qed.

(** The bracket pass follows strings as the quote pass does under
    [quoteType: 'both']; it has no other way of following them. *)
Lemma bracketStep_strState (i : Z) (st : BracketState) (c : char) :
  strInv (strState st) ->
  strState (bracketStep i st c) = quoteStep Both (strState st) c.
Proof.
  unfold strInv, bracketStep, quoteStep.
  destruct st as [stk [ins sc esc] lc li]; simpl.
  destruct esc; simpl; [reflexivity|].
  destruct (char_eqb c Ch.backslash); simpl; [reflexivity|].
  destruct ins; simpl.
  - destruct sc as [s|]; [|contradiction]. intros Hs.
    rewrite andb_false_r, andb_true_r. simpl.
    destruct (char_eqb c s) eqn:E; simpl.
    + apply char_eqb_eq in E. subst s. rewrite Hs. reflexivity.
    + destruct (isQuote c); reflexivity.
  - destruct sc; [contradiction|]. intros _.
    rewrite andb_true_r. simpl.
    destruct (isQuote c); simpl; reflexivity.
Qed.

Lemma bracketScanFrom_strState (s : jsstring) :
  forall i st,
    strInv (strState st) ->
    strState (bracketScanFrom i st s) = fold_left (quoteStep Both) s (strState st).
Proof.
  induction s as [|c s IH]; intros i st H; simpl; [reflexivity|].
  rewrite IH.
  - rewrite bracketStep_strState by exact H. reflexivity.
  - rewrite bracketStep_strState by exact H. apply quoteStep_inv, H.
Qed.

Lemma bracketScan_strState (s : jsstring) :
  strState (bracketScan s) = quoteScan Both s.
Proof. apply bracketScanFrom_strState, strInv_init. Qed.

Lemma bracketScanFrom_app (a b : jsstring) :
  forall i st,
    bracketScanFrom i st (a ++ b)
    = bracketScanFrom (i + len a) (bracketScanFrom i st a) b.
Proof.
  induction a as [|c a IH]; intros i st; simpl.
  - f_equal. unfold len. simpl. lia.
  - rewrite IH. f_equal. unfold len. simpl List.length. lia.
Qed.

(** The stack holds closers only. *)
Lemma stackStep_closers (stk : list char) (c : char) :
  forallb isCloser stk = true -> forallb isCloser (stackStep stk c) = true.
Proof.
  unfold stackStep. intros H.
  destruct (_ || _); simpl.
  - rewrite closerOf_isCloser. exact H.
  - destruct (_ || _); [|exact H].
    destruct stk as [|top rest]; [exact H|].
    destruct (char_eqb top c); [|exact H].
    simpl in H. apply andb_true_iff in H. tauto.
Qed.

Lemma bracketStep_closers (i : Z) (st : BracketState) (c : char) :
  forallb isCloser (stack st) = true ->
  forallb isCloser (stack (bracketStep i st c)) = true.
Proof.
  unfold bracketStep. intros H.
  destruct (escaped _); simpl; [exact H|].
  destruct (char_eqb c Ch.backslash); simpl; [exact H|].
  match goal with |- context [if negb ?b then _ else _] => destruct b end; simpl.
  - exact H.
  - apply stackStep_closers, H.
Qed.

Lemma bracketScanFrom_closers (s : jsstring) :
  forall i st,
    forallb isCloser (stack st) = true ->
    forallb isCloser (stack (bracketScanFrom i st s)) = true.
Proof.
  induction s as [|c s IH]; intros i st H; simpl; [exact H|].
  apply IH, bracketStep_closers, H.
Qed.

Lemma bracketScan_closers (s : jsstring) :
  forallb isCloser (stack (bracketScan s)) = true.
Proof. apply bracketScanFrom_closers. reflexivity. Qed.

(** ** The structure the bracket scan sees

    The stack and the string state evolve on their own: the record of the
    last significant character never feeds back into them. *)

Lemma bracketStep_core (i : Z) (st : BracketState) (c : char) :
  (stack (bracketStep i st c), strState (bracketStep i st c))
  = coreStep (stack st, strState st) c.
Proof.
  unfold coreStep, bracketStep. simpl.
  destruct (escaped _); simpl; [reflexivity|].
  destruct (char_eqb c Ch.backslash); simpl; [reflexivity|].
  match goal with |- context [if negb ?b then _ else _] => destruct b end;
    reflexivity.
Qed.

Lemma bracketScanFrom_core (s : jsstring) :
  forall i st,
    (stack (bracketScanFrom i st s), strState (bracketScanFrom i st s))
    = fold_left coreStep s (stack st, strState st).
Proof.
  induction s as [|c s IH]; intros i st; simpl; [reflexivity|].
  rewrite IH, bracketStep_core. reflexivity.
Qed.

Lemma bracketScan_core (s : jsstring) :
  (stack (bracketScan s), strState (bracketScan s)) = structureOf s.
Proof. apply bracketScanFrom_core. Qed.

Lemma structureOf_app (a b : jsstring) :
  structureOf (a ++ b) = fold_left coreStep b (structureOf a).
Proof. apply fold_left_app. Qed.

Ltac char_cases :=
  repeat match goal with
         | H : isQuote _ = true |- _ => apply isQuote_cases in H as [-> | ->]
         | H : isCloser _ = true |- _ => apply isCloser_cases in H as [-> | ->]
         end.

Lemma core_plain (stk : list char) (c : char) :
  isPlain c = true -> coreStep (stk, quoteInit) c = (stk, quoteInit).
Proof.
  unfold isPlain, isQuote. intros H. apply negb_true_iff in H.
  repeat (apply orb_false_iff in H as [H ?]).
  unfold coreStep, bracketStep, stackStep, isQuote; simpl.
  repeat match goal with E : _ = false |- _ => rewrite E; clear E end.
  reflexivity.
Qed.

Lemma core_open (stk : list char) (c : char) :
  c = Ch.lbrace \/ c = Ch.lbracket ->
  coreStep (stk, quoteInit) c = (closerOf c :: stk, quoteInit).
Proof. intros [-> | ->]; reflexivity. Qed.

Lemma core_close (rest : list char) (c : char) :
  isCloser c = true -> coreStep (c :: rest, quoteInit) c = (rest, quoteInit).
Proof. intros H. char_cases; reflexivity. Qed.

Lemma core_enter (stk : list char) (q : char) :
  isQuote q = true -> coreStep (stk, quoteInit) q = (stk, inside q).
Proof. intros H. char_cases; reflexivity. Qed.

Lemma core_leave (stk : list char) (q : char) :
  isQuote q = true -> coreStep (stk, inside q) q = (stk, quoteInit).
Proof. intros H. char_cases; reflexivity. Qed.

Lemma core_inside (stk : list char) (q c : char) :
  c <> q -> c <> Ch.backslash ->
  coreStep (stk, inside q) c = (stk, inside q).
Proof.
  intros Hc Hb.
  unfold coreStep, bracketStep; simpl.
  destruct (char_eqb c Ch.backslash) eqn:E1;
    [apply char_eqb_eq in E1; contradiction|].
  destruct (char_eqb c q) eqn:E2;
    [apply char_eqb_eq in E2; contradiction|].
  rewrite andb_false_r. reflexivity.
Qed.

Lemma core_backslash (stk : list char) (q : char) :
  coreStep (stk, inside q) Ch.backslash = (stk, insideEscaped q).
Proof. reflexivity. Qed.

Lemma core_escaped (stk : list char) (q c : char) :
  coreStep (stk, insideEscaped q) c = (stk, inside q).
Proof. reflexivity. Qed.

Lemma plain_null : forallb isPlain (txt "null") = true.
Proof. reflexivity. Qed.

Lemma scan_plain (s : jsstring) :
  forall stk, forallb isPlain s = true ->
              fold_left coreStep s (stk, quoteInit) = (stk, quoteInit).
Proof.
  induction s as [|c s IH]; intros stk H; simpl; [reflexivity|].
  simpl in H. apply andb_true_iff in H as [Hc Hs].
  rewrite core_plain by exact Hc. apply IH, Hs.
Qed.

(** Scanning the closers of the stack itself empties it. *)
Lemma scan_closers (stk : list char) :
  forallb isCloser stk = true ->
  fold_left coreStep stk (stk, quoteInit) = ([], quoteInit).
Proof.
  induction stk as [|c rest IH]; intros H; simpl; [reflexivity|].
  simpl in H. apply andb_true_iff in H as [Hc Hrest].
  rewrite core_close by exact Hc. apply IH, Hrest.
Qed.

(** ** What each pass appends *)

Lemma balanceBrackets_balanced (t : jsstring) :
  exists v, (v = [] \/ v = txt "null")
            /\ balanced (balanceBrackets t) = t ++ v ++ stack (bracketScan t).
Proof.
  unfold balanceBrackets.
  destruct (_ && negb _); [destruct (ochar_eqb Ch.colon _)|];
    rewrite closeRemaining_eq; simpl balanced.
  - exists (txt "null"). split; [auto|]. rewrite <- app_assoc. reflexivity.
  - exists []. split; [auto|]. reflexivity.
  - exists []. split; [auto|]. reflexivity.
Qed.

Lemma balanceQuotes_balanced (cfg : Config) (input : jsstring) :
  let st := quoteScan (cfg_quoteType cfg) input in
  balanced (balanceQuotes cfg input)
  = input ++ (if inString st then
                match stringChar st with Some q => [q] | None => [] end
              else []).
Proof.
  unfold balanceQuotes. simpl.
  destruct (inString _); [destruct (stringChar _)|]; simpl;
    rewrite ?app_nil_r; reflexivity.
Qed.

(** ** Structural closure of a text *)

Lemma closed_after_brackets (t : jsstring) :
  snd (structureOf t) = quoteInit ->
  structurallyClosed (balanced (balanceBrackets t)).
Proof.
  intros Hq.
  destruct (balanceBrackets_balanced t) as [v [Hv ->]].
  pose proof (bracketScan_core t) as Ht.
  pose proof (bracketScan_closers t) as Hc.
  assert (Hs : structureOf (t ++ v ++ stack (bracketScan t)) = ([], quoteInit)).
  { rewrite structureOf_app, fold_left_app.
    destruct (structureOf t) as [stk q] eqn:E. simpl in Hq. subst q.
    injection Ht as Hstk _. rewrite Hstk in *.
    rewrite scan_plain by (destruct Hv as [-> | ->]; reflexivity).
    apply scan_closers, Hc. }
  pose proof (bracketScan_core (t ++ v ++ stack (bracketScan t))) as Ho.
  rewrite Hs in Ho. injection Ho as H1 H2.
  split; [exact H1 | rewrite H2; reflexivity].
Qed.

Lemma quoteStep_escaped (qt : QuoteType) (q : QuoteState) (c : char) :
  escaped (quoteStep qt q c)
  = if escaped q then false else char_eqb c Ch.backslash.
Proof.
  unfold quoteStep. destruct (escaped q) eqn:E; simpl; [reflexivity|].
  destruct (char_eqb c Ch.backslash); simpl; [reflexivity|].
  destruct (_ && isQuote c); [|exact E].
  destruct (negb _); [reflexivity|].
  destruct (ochar_eqb _ _); [reflexivity | exact E].
Qed.

(** The escape flag at the end of the quote scan is set exactly when the
    text ends in a pending escape. *)
Lemma quoteScan_escaped (qt : QuoteType) (s : jsstring) :
  escaped (quoteScan qt s) = endsInEscape s.
Proof.
  unfold quoteScan, endsInEscape, trailingBackslashes.
  induction s as [|c s IH] using rev_ind; [reflexivity|].
  rewrite fold_left_app, rev_app_distr. simpl.
  rewrite quoteStep_escaped, IH.
  destruct (char_eqb c Ch.backslash).
  - rewrite Nat.odd_succ, <- Nat.negb_odd.
    destruct (Nat.odd _); reflexivity.
  - destruct (Nat.odd _); reflexivity.
Qed.

(** ** C1: structural closure of the output *)

Lemma validateAndBalance_nonempty (cfg : Config) (input : jsstring) :
  input <> [] ->
  validateAndBalance cfg input
  = let quoteResult :=
      if cfg_balanceQuotes cfg then balanceQuotes cfg input
      else {| balanced := input; dummyValues := [] |} in
    {| balanced := balanced (balanceBrackets (balanced quoteResult));
       dummyValues := dummyValues quoteResult
                      ++ dummyValues (balanceBrackets (balanced quoteResult)) |}.
Proof. destruct input; [congruence | reflexivity]. Qed.

(** After the quote pass of the default configuration, a text whose scan
    has no escape pending ends outside any string. *)
Lemma quoted_outside (input : jsstring) :
  endsInEscape input = false ->
  snd (structureOf (balanced (balanceQuotes DEFAULT_CONFIG input))) = quoteInit.
Proof.
  intros Hesc. rewrite balanceQuotes_balanced. simpl cfg_quoteType.
  pose proof (quoteScan_inv Both input) as Hinv.
  pose proof (quoteScan_escaped Both input) as He. rewrite Hesc in He.
  pose proof (bracketScan_core input) as Hc.
  rewrite bracketScan_strState in Hc.
  destruct (inString (quoteScan Both input)) eqn:Hin.
  - unfold strInv in Hinv. rewrite Hin in Hinv.
    destruct (stringChar (quoteScan Both input)) as [q|] eqn:Hsc;
      [|contradiction].
    rewrite structureOf_app, <- Hc. simpl fold_left.
    replace (quoteScan Both input) with (inside q).
    + rewrite core_leave by exact Hinv. reflexivity.
    + destruct (quoteScan Both input); simpl in *. subst. reflexivity.
  - rewrite app_nil_r, <- Hc. simpl.
    apply strInv_outside; assumption.
Qed.

(** Under the default configuration, for every input that does not end
    in a pending escape (a run of backslashes of odd length at its very
    end), the output of the balance, scanned left to right as the bracket
    pass scans, has no unmatched opener left and ends outside any string. *)
Lemma closure_without_pending_escape (input : jsstring) :
  endsInEscape input = false ->
  structurallyClosed (balanced (validateAndBalance DEFAULT_CONFIG input)).
Proof.
  intros Hesc. destruct input as [|c input].
  - split; reflexivity.
  - rewrite validateAndBalance_nonempty by discriminate.
    simpl cfg_balanceQuotes. cbv iota. cbv zeta. simpl balanced at 1.
    apply closed_after_brackets, quoted_outside, Hesc.
Qed.

Example closure_sample :
  structurallyClosed
    (balanced (validateAndBalance DEFAULT_CONFIG (txt "{`items`: [1, {`a`: `x"))).
Proof. apply closure_without_pending_escape. reflexivity. Qed.

(** C1 fails on the code (a backtick stands for the double quote).  The
    input [{`text`: `He said \`Hello\] stops right after a backslash inside
    a string.  The quote pass appends the closing quote all the same; in
    the output [{`text`: `He said \`Hello\`null}] that quote is escaped by
    the backslash, so the scan of the output ends inside the string, with
    the closer of the opening brace still on the stack. *)
Theorem C1_pending_escape_leaves_string_open :
  let output :=
    balanced (validateAndBalance DEFAULT_CONFIG (txt "{`text`: `He said \`Hello\")) in
  output = txt "{`text`: `He said \`Hello\`null}"
  /\ stack (bracketScan output) = [Ch.rbrace]
  /\ inString (strState (bracketScan output)) = true
  /\ ~ structurallyClosed output.
Proof.
  cbv zeta. split; [vm_compute; reflexivity|].
  split; [vm_compute; reflexivity|].
  split; [vm_compute; reflexivity|].
  intros [Hstack _]. vm_compute in Hstack. discriminate Hstack.
Qed.

(** ** C9: the output extends the input *)

Lemma balanceQuotes_appends (cfg : Config) (input : jsstring) :
  exists q, balanced (balanceQuotes cfg input) = input ++ q
            /\ (q = [] \/ exists c, q = [c] /\ isQuote c = true).
Proof.
  rewrite balanceQuotes_balanced.
  pose proof (quoteScan_inv (cfg_quoteType cfg) input) as Hinv.
  unfold strInv in Hinv.
  destruct (inString _); [|exists []; auto].
  destruct (stringChar _) as [c|]; [|contradiction].
  exists [c]. split; [reflexivity|]. right. exists c. auto.
Qed.

Lemma balanceBrackets_appends (input : jsstring) :
  exists v closers,
    balanced (balanceBrackets input) = input ++ v ++ closers
    /\ (v = [] \/ v = txt "null")
    /\ forallb isCloser closers = true.
Proof.
  destruct (balanceBrackets_balanced input) as [v [Hv H]].
  exists v, (stack (bracketScan input)).
  repeat split; auto using bracketScan_closers.
Qed.

Lemma validateAndBalance_appends (cfg : Config) (input : jsstring) :
  exists q v closers,
    balanced (validateAndBalance cfg input) = input ++ q ++ v ++ closers
    /\ (q = [] \/ exists c, q = [c] /\ isQuote c = true)
    /\ (v = [] \/ v = txt "null")
    /\ forallb isCloser closers = true.
Proof.
  destruct input as [|c0 input].
  { exists [], [], []. simpl. auto. }
  rewrite validateAndBalance_nonempty by discriminate. simpl balanced at 1.
  destruct (cfg_balanceQuotes cfg).
  - destruct (balanceQuotes_appends cfg (c0 :: input)) as [q [Hq Hq']].
    destruct (balanceBrackets_appends (balanced (balanceQuotes cfg (c0 :: input))))
      as [v [cl [Hb [Hv Hcl]]]].
    exists q, v, cl. rewrite Hb, Hq, <- app_assoc. auto.
  - simpl balanced at 2.
    destruct (balanceBrackets_appends (c0 :: input)) as [v [cl [Hb [Hv Hcl]]]].
    exists [], v, cl. rewrite Hb. auto.
Qed.

(** C9.  For every configuration and input the balanced text is the input
    followed by appended characters only: the quote pass appends at most
    one quote character, the bracket pass at most the literal [null] and
    then closers, and so the whole balance leaves the input in place as a
    prefix of its output. *)
Theorem C9_output_extends_input (cfg : Config) (input : jsstring) :
  (exists q,
      balanced (balanceQuotes cfg input) = input ++ q
      /\ (q = [] \/ exists c, q = [c] /\ isQuote c = true))
  /\ (exists v closers,
         balanced (balanceBrackets input) = input ++ v ++ closers
         /\ (v = [] \/ v = txt "null")
         /\ forallb isCloser closers = true)
  /\ (exists q v closers,
         balanced (validateAndBalance cfg input) = input ++ q ++ v ++ closers
         /\ (q = [] \/ exists c, q = [c] /\ isQuote c = true)
         /\ (v = [] \/ v = txt "null")
         /\ forallb isCloser closers = true).
Proof.
  split; [apply balanceQuotes_appends|].
  split; [apply balanceBrackets_appends | apply validateAndBalance_appends].
Qed.

(** ** Runs of [appendChunk] *)

Section SessionFacts.

Variable jsvalue : Type.
Variable js_null : jsvalue.
Variable JSON_parse : jsstring -> completion jsvalue.

Let Parser := StreamingJsonParser jsvalue.

Lemma appendChunk_run (p : Parser) (chunk : jsstring) :
  appendChunk JSON_parse chunk p
  = let p1 := rebalanced p chunk in
    if cfg_returnParsedJson (config p) then
      match JSON_parse (lastBalancedString p1) with
      | Normal parsed =>
          (Normal (Parsed parsed),
           {| config := config p1;
              lastParsedData := parsed;
              lastBalancedString := lastBalancedString p1;
              addedDummyValues := addedDummyValues p1 |},
           [])
      | Throw error =>
          (Normal (Text (lastBalancedString p1)), p1,
           parseWarnings error (lastBalancedString p1))
      end
    else (Normal (Text (lastBalancedString p1)), p1, []).
Proof.
  unfold appendChunk, rebalanced, newInput, parseWarnings, bind, tryCatch,
    lift, get, ret, console_warn, set_lastBalancedString,
    set_addedDummyValues, set_lastParsedData.
  destruct p as [cfg lpd lbs adv]; cbn [config lastParsedData
    lastBalancedString addedDummyValues].
  destruct (isEmpty lbs); cbn [config lastParsedData lastBalancedString
    addedDummyValues app];
    destruct (cfg_returnParsedJson cfg); try reflexivity;
    destruct (JSON_parse _); reflexivity.
Qed.

(** With [returnParsedJson] off the one-shot operation hands back the
    balanced text and never calls the decoder. *)
Lemma validateStreamingJson_text (input : jsstring) (cfg : JsonParserConfig) :
  cfg_returnParsedJson (mergeConfig DEFAULT_CONFIG cfg) = false ->
  validateStreamingJson js_null JSON_parse input cfg
  = (Normal (Text (balanced (validateAndBalance (mergeConfig DEFAULT_CONFIG cfg) input))),
     []).
Proof.
  intros H. unfold validateStreamingJson. rewrite appendChunk_run.
  cbn [newParser config]. rewrite H. reflexivity.
Qed.

End SessionFacts.

(** ** C3: the value injected after a dangling colon *)

(** C3.  After the scan of the bracket pass: with a non-empty stack and
    [:] as last significant character the pass appends [null] before the
    closers and records it as a [value] insertion at the offset where it
    starts; with [,] or [[] as last significant character it appends the
    closers only and records nothing but them.  And the one-shot balance of
    [{`name`: `test`, `value`:] is [{`name`: `test`, `value`:null}] (a
    backtick stands for the double quote). *)
Theorem C3_null_after_dangling_colon :
  (forall input : jsstring,
      let st := bracketScan input in
      (stack st <> [] ->
       lastNonWhitespaceChar st = Some Ch.colon ->
       balanceBrackets input
       = {| balanced := input ++ txt "null" ++ stack st;
            dummyValues :=
              {| position := len input; value := txt "null"; type := Value |}
                :: bracketRecords (len input + 4) (stack st) |})
      /\ (lastNonWhitespaceChar st = Some Ch.comma
          \/ lastNonWhitespaceChar st = Some Ch.lbracket ->
          balanceBrackets input
          = {| balanced := input ++ stack st;
               dummyValues := bracketRecords (len input) (stack st) |}))
  /\ (forall (jsvalue : Type) (js_null : jsvalue)
             (JSON_parse : jsstring -> completion jsvalue),
         fst (validateStreamingJson js_null JSON_parse
                (txt "{`name`: `test`, `value`:") empty_config)
         = Normal (Text (txt "{`name`: `test`, `value`:null}"))).
Proof.
  split.
  - intros input st. unfold balanceBrackets. fold st. split.
    + intros Hstk Hlast. rewrite Hlast.
      assert (Hne : negb (isEmpty (stack st)) = true)
        by (destruct (stack st); [congruence | reflexivity]).
      rewrite Hne. change (ochar_eqb Ch.colon (Some Ch.colon)) with true.
      cbn [orb andb]. cbv beta iota zeta.
      rewrite closeRemaining_eq. rewrite len_app.
      change (len (txt "null")) with 4%Z.
      replace (len input + 4 - 4)%Z with (len input) by lia.
      rewrite <- app_assoc. reflexivity.
    + intros Hlast.
      assert (Hc : ochar_eqb Ch.colon (lastNonWhitespaceChar st) = false)
        by (destruct Hlast as [-> | ->]; reflexivity).
      rewrite Hc.
      destruct (_ && _); cbv beta iota zeta; rewrite closeRemaining_eq;
        reflexivity.
  - intros jsvalue js_null JSON_parse.
    rewrite validateStreamingJson_text by reflexivity.
    vm_compute. reflexivity.
Qed.

Lemma C3_null_after_dangling_colon_witness :
  balanceBrackets (txt "{`a`: {`b`:  ")
  = {| balanced := txt "{`a`: {`b`:  null}}";
       dummyValues :=
         [ {| position := 13; value := txt "null"; type := Value |};
           {| position := 17; value := [Ch.rbrace]; type := Bracket |};
           {| position := 18; value := [Ch.rbrace]; type := Bracket |} ] |}
  /\ balanceBrackets (txt "{`list`: [1, 2,")
     = {| balanced := txt "{`list`: [1, 2,]}";
          dummyValues :=
            [ {| position := 15; value := [Ch.rbracket]; type := Bracket |};
              {| position := 16; value := [Ch.rbrace]; type := Bracket |} ] |}.
Proof.
  split.
  - destruct C3_null_after_dangling_colon as [H _].
    destruct (H (txt "{`a`: {`b`:  ")) as [Hcolon _].
    rewrite Hcolon;
      [vm_compute; reflexivity | vm_compute; discriminate | vm_compute; reflexivity].
  - destruct C3_null_after_dangling_colon as [H _].
    destruct (H (txt "{`list`: [1, 2,")) as [_ Hsep].
    rewrite Hsep; [vm_compute; reflexivity | left; vm_compute; reflexivity].
Defined.

(** ** C4: the literal injected for a missing value *)

Lemma bracketRecords_shape (stk : list char) :
  forall start, forallb isCloser stk = true ->
                Forall dummyShape (bracketRecords start stk).
Proof.
  induction stk as [|c rest IH]; intros start H; simpl; constructor.
  - simpl in H. apply andb_true_iff in H as [Hc _].
    exists c. auto.
  - simpl in H. apply andb_true_iff in H as [_ Hr]. apply IH, Hr.
Qed.

Lemma balanceBrackets_shape (t : jsstring) :
  Forall dummyShape (dummyValues (balanceBrackets t)).
Proof.
  unfold balanceBrackets.
  pose proof (bracketScan_closers t) as Hc.
  destruct (_ && negb _); [destruct (ochar_eqb Ch.colon _)|];
    cbv beta iota zeta; rewrite closeRemaining_eq; simpl dummyValues;
    try (constructor; [reflexivity|]);
    apply bracketRecords_shape, Hc.
Qed.

Lemma balanceQuotes_shape (cfg : Config) (input : jsstring) :
  Forall dummyShape (dummyValues (balanceQuotes cfg input)).
Proof.
  unfold balanceQuotes.
  pose proof (quoteScan_inv (cfg_quoteType cfg) input) as Hinv.
  unfold strInv in Hinv.
  destruct (inString _); [|constructor].
  destruct (stringChar _) as [c|]; [|contradiction].
  constructor; [|constructor]. exists c. auto.
Qed.

Lemma validateAndBalance_shape (cfg : Config) (input : jsstring) :
  Forall dummyShape (dummyValues (validateAndBalance cfg input)).
Proof.
  destruct input as [|c0 input]; [constructor|].
  rewrite validateAndBalance_nonempty by discriminate. simpl dummyValues.
  apply Forall_app. split.
  - destruct (cfg_balanceQuotes cfg); [apply balanceQuotes_shape | constructor].
  - apply balanceBrackets_shape.
Qed.

(** C4 fails as stated: with [dummyValues.null] set to the literal [0],
    the balance of [{`a`:] still injects the fixed text [null]. *)
Lemma C4_counterexample :
  let cfg := withDummyValues
               {| dv_string := None; dv_number := None; dv_boolean := None;
                  dv_null := Some (txt "0") |} DEFAULT_CONFIG in
  balanced (validateAndBalance cfg (txt "{`a`:")) = txt "{`a`:null}"
  /\ ~ injectsConfiguredNull cfg (txt "{`a`:").
Proof.
  split; [vm_compute; reflexivity|].
  intros H.
  specialize (H (txt "0")
                {| position := 5; value := txt "null"; type := Value |}
                eq_refl).
  assert (Hin : In {| position := 5; value := txt "null"; type := Value |}
                   (dummyValues (validateAndBalance
                      (withDummyValues
                         {| dv_string := None; dv_number := None;
                            dv_boolean := None; dv_null := Some (txt "0") |}
                         DEFAULT_CONFIG) (txt "{`a`:"))))
    by (vm_compute; left; reflexivity).
  specialize (H Hin eq_refl). vm_compute in H. discriminate H.
Qed.

(** C4, as amended.  The balance never consults [dummyValues]: whatever
    that table holds the result is the same, and every [value] insertion
    carries the fixed text [null]. *)
Theorem C4_injected_value_is_fixed_null (cfg : Config) (input : jsstring) :
  (forall dv : DummyValues,
      validateAndBalance (withDummyValues dv cfg) input
      = validateAndBalance cfg input)
  /\ (forall d : Dummy,
         In d (dummyValues (validateAndBalance cfg input)) ->
         type d = Value ->
         value d = txt "null").
Proof.
  split.
  - intros dv. reflexivity.
  - intros d Hin Hty.
    pose proof (validateAndBalance_shape cfg input) as Hall.
    rewrite Forall_forall in Hall. specialize (Hall d Hin).
    unfold dummyShape in Hall. rewrite Hty in Hall. exact Hall.
Qed.

Lemma C4_injected_value_is_fixed_null_witness :
  let cfg := withDummyValues
               {| dv_string := None; dv_number := None; dv_boolean := None;
                  dv_null := Some (txt "0") |} DEFAULT_CONFIG in
  let d := {| position := 5; value := txt "null"; type := Value |} in
  In d (dummyValues (validateAndBalance cfg (txt "{`a`:")))
  /\ type d = Value
  /\ value d = txt "null".
Proof.
  intros cfg d.
  assert (Hin : In d (dummyValues (validateAndBalance cfg (txt "{`a`:"))))
    by (vm_compute; left; reflexivity).
  split; [exact Hin|]. split; [reflexivity|].
  exact (proj2 (C4_injected_value_is_fixed_null cfg (txt "{`a`:")) d Hin eq_refl).
Defined.

(** ** C5: string tracking in the two passes *)

(** C5 fails as stated: the bracket pass has no access to [quoteType]; a
    double quote opens a string for it under every configuration, so its
    string state differs from that of the quote pass under
    [quoteType: 'single'].  On the input made of a double quote and an
    opening brace, balanced with [quoteType: 'single'], the quote pass sees
    no string and the bracket pass sees the brace inside one: nothing is
    appended. *)
Lemma C5_counterexample :
  ~ dquoteInert (fun s => strState (bracketScan s))
  /\ strState (bracketScan [Ch.dquote]) <> quoteScan Single [Ch.dquote]
  /\ balanced (validateAndBalance
                 {| cfg_balanceQuotes := true; cfg_quoteType := Single;
                    cfg_returnParsedJson := false;
                    cfg_dummyValues := cfg_dummyValues DEFAULT_CONFIG |}
                 (txt "`{"))
     = txt "`{".
Proof.
  split; [|split].
  - intros H. specialize (H []). vm_compute in H. discriminate H.
  - vm_compute. discriminate.
  - vm_compute. reflexivity.
Qed.

Lemma quoteStep_single_dquote (q : QuoteState) :
  inString (quoteStep Single q Ch.dquote) = inString q
  /\ stringChar (quoteStep Single q Ch.dquote) = stringChar q.
Proof.
  unfold quoteStep. destruct (escaped q); simpl; auto.
Qed.

(** C5, as amended.  The quote pass honours [quoteType]: under ['single']
    a double quote never changes its string state.  The bracket pass tracks
    strings, under every configuration, as the quote pass does under
    ['both'].  In either pass, and under every [quoteType], a double quote
    met inside an open single-quoted string leaves that string open. *)
Theorem C5_quote_tracking :
  (forall s : jsstring,
      inString (quoteScan Single (s ++ [Ch.dquote])) = inString (quoteScan Single s)
      /\ stringChar (quoteScan Single (s ++ [Ch.dquote]))
         = stringChar (quoteScan Single s))
  /\ (forall s : jsstring, strState (bracketScan s) = quoteScan Both s)
  /\ (forall (qt : QuoteType) (q : QuoteState),
         inString q = true -> stringChar q = Some Ch.squote ->
         inString (quoteStep qt q Ch.dquote) = true
         /\ stringChar (quoteStep qt q Ch.dquote) = Some Ch.squote)
  /\ (forall (i : Z) (st : BracketState),
         inString (strState st) = true ->
         stringChar (strState st) = Some Ch.squote ->
         inString (strState (bracketStep i st Ch.dquote)) = true
         /\ stringChar (strState (bracketStep i st Ch.dquote)) = Some Ch.squote).
Proof.
  split; [|split; [|split]].
  - intros s. unfold quoteScan. rewrite fold_left_app. simpl.
    apply quoteStep_single_dquote.
  - apply bracketScan_strState.
  - intros qt [ins sc esc]; simpl. intros -> ->.
    unfold quoteStep; simpl. destruct esc; simpl; auto.
    destruct qt; simpl; auto.
  - intros i [stk [ins sc esc] lc li]; simpl. intros -> ->.
    unfold bracketStep; simpl. destruct esc; simpl; auto.
Qed.

Lemma C5_quote_tracking_witness :
  (inString (quoteStep Double (inside Ch.squote) Ch.dquote) = true
   /\ stringChar (quoteStep Double (inside Ch.squote) Ch.dquote) = Some Ch.squote)
  /\ (inString (strState (bracketStep 3
         {| stack := [Ch.rbrace]; strState := inside Ch.squote;
            lastNonWhitespaceChar := Some Ch.colon;
            lastNonWhitespaceIndex := 1 |} Ch.dquote)) = true
      /\ stringChar (strState (bracketStep 3
           {| stack := [Ch.rbrace]; strState := inside Ch.squote;
              lastNonWhitespaceChar := Some Ch.colon;
              lastNonWhitespaceIndex := 1 |} Ch.dquote)) = Some Ch.squote).
Proof.
  destruct C5_quote_tracking as [_ [_ [Hq Hb]]].
  split.
  - apply Hq; reflexivity.
  - apply Hb; reflexivity.
Defined.

(** ** C2: retraction before the next chunk *)

Lemma endsWith_iff (s v : jsstring) :
  endsWith s v = true <-> exists base, s = base ++ v.
Proof.
  unfold endsWith. rewrite andb_true_iff, Nat.leb_le, jsstring_eqb_eq. split.
  - intros [Hle Hv]. exists (firstn (List.length s - List.length v) s).
    transitivity (firstn (List.length s - List.length v) s
                  ++ skipn (List.length s - List.length v) s).
    + symmetry. apply firstn_skipn.
    + f_equal. exact Hv.
  - intros [base ->]. rewrite length_app. split; [lia|].
    replace (List.length base + List.length v - List.length v)%nat
      with (List.length base + 0)%nat by lia.
    rewrite skipn_app, Nat.add_0_r, skipn_all.
    replace (List.length base - List.length base)%nat with 0%nat by lia.
    reflexivity.
Qed.

Lemma sliceOffEnd_app (base v : jsstring) :
  v <> [] -> sliceOffEnd (base ++ v) (List.length v) = base.
Proof.
  intros Hv. unfold sliceOffEnd.
  destruct (List.length v) eqn:E.
  - destruct v; [congruence | discriminate].
  - rewrite <- E, length_app.
    replace (List.length base + List.length v - List.length v)%nat
      with (List.length base + 0)%nat by lia.
    rewrite firstn_app_2. simpl. apply app_nil_r.
Qed.

Lemma retractStep_retracted (text : jsstring) (d : Dummy) :
  value d <> [] -> retracted (value d) text (retractStep text d).
Proof.
  intros Hv. unfold retractStep.
  destruct (endsWith text (value d)) eqn:E.
  - apply endsWith_iff in E as [base ->].
    rewrite sliceOffEnd_app by exact Hv. constructor.
  - constructor. intros base Hb.
    assert (endsWith text (value d) = true) by (apply endsWith_iff; eauto).
    congruence.
Qed.

Lemma retractSteps_retractedAll (ds : list Dummy) :
  forall text,
    Forall (fun d => value d <> []) ds ->
    retractedAll ds text (fold_left retractStep ds text).
Proof.
  induction ds as [|d ds IH]; intros text H; simpl.
  - constructor.
  - inversion H; subst.
    econstructor; [apply retractStep_retracted; assumption|].
    apply IH. assumption.
Qed.

Lemma insertByPosition_perm (d : Dummy) (l : list Dummy) :
  Permutation (insertByPosition d l) (d :: l).
Proof.
  induction l as [|e rest IH]; simpl; [reflexivity|].
  destruct (position d <? position e)%Z; [|reflexivity].
  rewrite IH. apply perm_swap.
Qed.

Lemma sortedDummies_perm (l : list Dummy) : Permutation (sortedDummies l) l.
Proof.
  induction l as [|d l IH]; simpl; [reflexivity|].
  rewrite insertByPosition_perm. constructor. exact IH.
Qed.

Lemma insertByPosition_sorted (d : Dummy) (l : list Dummy) :
  byPositionDescending l -> byPositionDescending (insertByPosition d l).
Proof.
  unfold byPositionDescending.
  induction l as [|e rest IH]; intros H; simpl.
  - repeat constructor.
  - inversion H as [|? ? Hrest Hall]; subst.
    destruct (position d <? position e)%Z eqn:E.
    + apply Z.ltb_lt in E. constructor; [apply IH, Hrest|].
      apply (Permutation_Forall (Permutation_sym (insertByPosition_perm d rest))).
      constructor; [lia | exact Hall].
    + apply Z.ltb_ge in E. constructor; [exact H|].
      constructor; [exact E|].
      eapply Forall_impl; [|exact Hall]. simpl. intros a Ha. lia.
Qed.

Lemma sortedDummies_sorted (l : list Dummy) :
  byPositionDescending (sortedDummies l).
Proof.
  induction l as [|d l IH]; simpl.
  - constructor.
  - apply insertByPosition_sorted, IH.
Qed.

Lemma retractDummies_fold (text : jsstring) (dummies : list Dummy) :
  retractDummies text dummies
  = fold_left retractStep (sortedDummies dummies) text.
Proof. destruct dummies; reflexivity. Qed.

Lemma dummyShape_nonempty (d : Dummy) : dummyShape d -> value d <> [].
Proof.
  unfold dummyShape. destruct (type d).
  - intros [c [-> _]]. discriminate.
  - intros [c [-> _]]. discriminate.
  - intros ->. discriminate.
Qed.

Lemma validateAndBalance_empty_text (cfg : Config) (input : jsstring) :
  balanced (validateAndBalance cfg input) = [] ->
  dummyValues (validateAndBalance cfg input) = [].
Proof.
  destruct (validateAndBalance_appends cfg input) as [q [v [cl [H _]]]].
  rewrite H. intros E. apply app_eq_nil in E as [-> _]. reflexivity.
Qed.

Section SessionProperties.

Variable jsvalue : Type.
Variable js_null : jsvalue.
Variable JSON_parse : jsstring -> completion jsvalue.

Let Parser := StreamingJsonParser jsvalue.

(** After [appendChunk] the parser is the rebalanced one, up to the parsed
    value it remembers. *)
Lemma appendChunk_parser (p : Parser) (chunk : jsstring) :
  let p' := parserOf (appendChunk JSON_parse chunk p) in
  config p' = config p
  /\ lastBalancedString p' = lastBalancedString (rebalanced p chunk)
  /\ addedDummyValues p' = addedDummyValues (rebalanced p chunk).
Proof.
  rewrite appendChunk_run. cbv zeta.
  destruct (cfg_returnParsedJson (config p)); [destruct (JSON_parse _)|];
    unfold parserOf; simpl; auto.
Qed.

Lemma reachable_inv (p : Parser) :
  reachable js_null JSON_parse p -> sessionInv p.
Proof.
  induction 1 as [cfg | p chunk _ _ | p _ _ | p cfg _ IH | p _ IH].
  - split; [constructor | reflexivity].
  - destruct (appendChunk_parser p chunk) as [_ [Ht Hd]].
    unfold sessionInv. rewrite Ht, Hd. simpl. split.
    + apply validateAndBalance_shape.
    + apply validateAndBalance_empty_text.
  - split; [constructor | reflexivity].
  - exact IH.
  - unfold getCurrentData, bind, get, ret, parserOf.
    destruct (cfg_returnParsedJson (config p)); exact IH.
Qed.

(** C2.  On every [appendChunk] of a parser the public interface can
    produce, and so on every call after the first: the recorded insertions
    are taken from the highest recorded position to the lowest; each in
    turn is removed from the end of the current text when the text ends
    with exactly its literal, and nothing is removed otherwise; the chunk
    is appended to what is left, the result is balanced afresh, and the
    balanced text and its insertions become the state of the session. *)
Theorem C2_retract_then_rebalance (p : Parser) (chunk : jsstring) :
  reachable js_null JSON_parse p ->
  exists (ds : list Dummy) (base : jsstring),
    Permutation ds (addedDummyValues p)
    /\ byPositionDescending ds
    /\ retractedAll ds (lastBalancedString p) base
    /\ let p' := parserOf (appendChunk JSON_parse chunk p) in
       let balancedResult := validateAndBalance (config p) (base ++ chunk) in
       lastBalancedString p' = balanced balancedResult
       /\ addedDummyValues p' = dummyValues balancedResult
       /\ config p' = config p.
Proof.
  intros Hreach. destruct (reachable_inv Hreach) as [Hshape Hempty].
  exists (sortedDummies (addedDummyValues p)),
         (fold_left retractStep (sortedDummies (addedDummyValues p))
                    (lastBalancedString p)).
  split; [apply sortedDummies_perm|].
  split; [apply sortedDummies_sorted|].
  split.
  - apply retractSteps_retractedAll.
    apply (Permutation_Forall (Permutation_sym (sortedDummies_perm _))).
    eapply Forall_impl; [|exact Hshape]. apply dummyShape_nonempty.
  - destruct (appendChunk_parser p chunk) as [Hc [Ht Hd]].
    cbv zeta. rewrite Ht, Hd, Hc. unfold rebalanced, newInput. simpl.
    rewrite retractDummies_fold.
    destruct (lastBalancedString p) eqn:E; simpl isEmpty; cbv iota.
    + rewrite (Hempty eq_refl). simpl. auto.
    + auto.
Qed.

(** ** C6: totality, empty and blank input *)

Lemma whitespace_plain (c : char) : isWhitespace c = true -> isPlain c = true.
Proof.
  intros H. unfold isPlain, isQuote.
  repeat match goal with
         | |- context [char_eqb c ?k] =>
             destruct (char_eqb c k) eqn:?E;
             [apply char_eqb_eq in E; subst c; discriminate H | clear E]
         end.
  reflexivity.
Qed.

Lemma whitespace_quoteStep (qt : QuoteType) (c : char) :
  isWhitespace c = true -> quoteStep qt quoteInit c = quoteInit.
Proof.
  intros H. apply whitespace_plain in H. unfold isPlain in H.
  apply negb_true_iff in H. repeat (apply orb_false_iff in H as [H ?]).
  unfold quoteStep. simpl.
  repeat match goal with E : _ = false |- _ => rewrite E; clear E end.
  rewrite andb_false_r. reflexivity.
Qed.

Lemma blank_quoteScan (qt : QuoteType) (ws : jsstring) :
  forallb isWhitespace ws = true -> quoteScan qt ws = quoteInit.
Proof.
  unfold quoteScan. induction ws as [|c ws IH]; intros H; simpl; [reflexivity|].
  simpl in H. apply andb_true_iff in H as [Hc Hws].
  rewrite whitespace_quoteStep by exact Hc. apply IH, Hws.
Qed.

Lemma blank_bracketStep (i : Z) (st : BracketState) (c : char) :
  isWhitespace c = true -> strState st = quoteInit ->
  bracketStep i st c = st.
Proof.
  intros Hw Hq. pose proof (whitespace_plain c Hw) as H. unfold isPlain in H.
  apply negb_true_iff in H. repeat (apply orb_false_iff in H as [H ?]).
  destruct st as [stk q lc li]. simpl in Hq. subst q.
  unfold bracketStep, stackStep. simpl.
  repeat match goal with E : _ = false |- _ => rewrite E; clear E end.
  rewrite Hw. reflexivity.
Qed.

Lemma blank_bracketScan (ws : jsstring) :
  forallb isWhitespace ws = true -> bracketScan ws = bracketInit.
Proof.
  unfold bracketScan. generalize 0%Z.
  induction ws as [|c ws IH]; intros i H; simpl; [reflexivity|].
  simpl in H. apply andb_true_iff in H as [Hc Hws].
  rewrite blank_bracketStep by (exact Hc || reflexivity). apply IH, Hws.
Qed.

Lemma blank_validateAndBalance (cfg : Config) (ws : jsstring) :
  forallb isWhitespace ws = true ->
  validateAndBalance cfg ws = {| balanced := ws; dummyValues := [] |}.
Proof.
  intros H. destruct ws as [|c ws]; [reflexivity|].
  rewrite validateAndBalance_nonempty by discriminate.
  assert (Hq : (if cfg_balanceQuotes cfg then balanceQuotes cfg (c :: ws)
                else {| balanced := c :: ws; dummyValues := [] |})
               = {| balanced := c :: ws; dummyValues := [] |}).
  { destruct (cfg_balanceQuotes cfg); [|reflexivity].
    unfold balanceQuotes. rewrite blank_quoteScan by exact H. reflexivity. }
  cbv zeta. rewrite Hq. simpl balanced. simpl dummyValues.
  unfold balanceBrackets. rewrite blank_bracketScan by exact H. simpl.
  rewrite ?app_nil_r. reflexivity.
Qed.

(** C6.  [appendChunk], and with it the one-shot operation, completes
    normally on every text under every configuration: the only exception
    that can arise, the decoder's, is caught.  With a decoder that rejects
    blank text (as [JSON.parse] does), the one-shot balance of the empty
    string is the empty string and that of a whitespace-only string is the
    string itself, in both cases with no insertion recorded. *)
Theorem C6_total_and_blank_unchanged :
  (forall ws, forallb isWhitespace ws = true -> exists e, JSON_parse ws = Throw e) ->
  forall cfg : JsonParserConfig,
    (forall (p : Parser) (chunk : jsstring),
        exists d, resultOf (appendChunk JSON_parse chunk p) = Normal d)
    /\ (forall input : jsstring,
           exists d,
             fst (validateStreamingJson js_null JSON_parse input cfg) = Normal d)
    /\ (fst (validateStreamingJson js_null JSON_parse [] cfg) = Normal (Text [])
        /\ addedDummyValues
             (parserOf (appendChunk JSON_parse [] (newParser js_null cfg))) = [])
    /\ (forall ws : jsstring,
           forallb isWhitespace ws = true ->
           fst (validateStreamingJson js_null JSON_parse ws cfg) = Normal (Text ws)
           /\ addedDummyValues
                (parserOf (appendChunk JSON_parse ws (newParser js_null cfg))) = []).
Proof.
  intros Hblank cfg.
  assert (Htotal : forall (p : Parser) chunk,
             exists d, resultOf (appendChunk JSON_parse chunk p) = Normal d).
  { intros p chunk. rewrite appendChunk_run. cbv zeta.
    destruct (cfg_returnParsedJson (config p)); [destruct (JSON_parse _)|];
      unfold resultOf; simpl; eauto. }
  assert (Hws : forall ws : jsstring,
             forallb isWhitespace ws = true ->
             fst (validateStreamingJson js_null JSON_parse ws cfg) = Normal (Text ws)
             /\ addedDummyValues
                  (parserOf (appendChunk JSON_parse ws (newParser js_null cfg))) = []).
  { intros ws H. unfold validateStreamingJson. rewrite appendChunk_run.
    unfold rebalanced, newInput. cbn [newParser lastBalancedString isEmpty config].
    rewrite blank_validateAndBalance by exact H.
    cbn [balanced dummyValues lastBalancedString config].
    destruct (cfg_returnParsedJson (mergeConfig DEFAULT_CONFIG cfg)).
    - destruct (Hblank ws H) as [e ->]. unfold resultOf, parserOf. simpl. auto.
    - unfold resultOf, parserOf. simpl. auto. }
  split; [exact Htotal|].
  split; [intros input; apply Htotal|].
  split; [apply (Hws []); reflexivity | exact Hws].
Qed.

(** ** C7 and C10: a failing decode *)

(** C7.  With [returnParsedJson] on, when the decoder throws on the
    balanced text, [appendChunk] completes normally, hands back that
    balanced text, and has reported the failure in two warnings. *)
Theorem C7_decode_failure_falls_back (p : Parser) (chunk : jsstring) (error : exn) :
  cfg_returnParsedJson (config p) = true ->
  JSON_parse (lastBalancedString (rebalanced p chunk)) = Throw error ->
  let r := appendChunk JSON_parse chunk p in
  resultOf r = Normal (Text (lastBalancedString (rebalanced p chunk)))
  /\ lastBalancedString (parserOf r) = lastBalancedString (rebalanced p chunk)
  /\ warningsOf r
     = [ (txt "JSON parsing failed, returning balanced string:", errorMessage error);
         (txt "Attempted to parse:", lastBalancedString (rebalanced p chunk)) ].
Proof.
  intros Hcfg Hfail. cbv zeta. rewrite appendChunk_run. cbv zeta.
  rewrite Hcfg, Hfail. unfold resultOf, parserOf, warningsOf. simpl. auto.
Qed.

(** C10.  With [returnParsedJson] on, when the decoder throws on the
    balanced text, the parsed value the session remembers is left as it
    was: [getCurrentData] after the call yields the value of the last
    successful decode (the initial [null] on a fresh parser), not the text
    that the failing call handed back. *)
Theorem C10_failed_decode_keeps_parsed_value (p : Parser) (chunk : jsstring) (error : exn) :
  cfg_returnParsedJson (config p) = true ->
  JSON_parse (lastBalancedString (rebalanced p chunk)) = Throw error ->
  let r := appendChunk JSON_parse chunk p in
  resultOf r = Normal (Text (lastBalancedString (rebalanced p chunk)))
  /\ lastParsedData (parserOf r) = lastParsedData p
  /\ resultOf (getCurrentData (parserOf r)) = Normal (Parsed (lastParsedData p)).
Proof.
  intros Hcfg Hfail. cbv zeta. rewrite appendChunk_run. cbv zeta.
  rewrite Hcfg, Hfail. unfold resultOf, parserOf, getCurrentData, bind, get, ret.
  simpl. rewrite Hcfg. simpl. auto.
Qed.

End SessionProperties.

(** ** C8: already closed text *)

Lemma scan_body (q : char) (body : jsstring) :
  StringBody q body ->
  forall stk, fold_left coreStep body (stk, inside q) = (stk, inside q).
Proof.
  induction 1 as [| c s Hq Hb _ IH | c s _ IH]; intros stk; simpl.
  - reflexivity.
  - rewrite core_inside by assumption. apply IH.
  - rewrite core_backslash, core_escaped. apply IH.
Qed.

Lemma scan_valid (x : jsstring) :
  StructurallyValid x ->
  forall stk, fold_left coreStep x (stk, quoteInit) = (stk, quoteInit).
Proof.
  induction 1 as [| c s Hc _ IH | q body s Hq Hbody _ IH
                  | inner s _ IHi _ IHs | inner s _ IHi _ IHs ];
    intros stk; simpl.
  - reflexivity.
  - rewrite core_plain by exact Hc. apply IH.
  - rewrite core_enter by exact Hq. rewrite fold_left_app.
    rewrite scan_body by exact Hbody. simpl.
    rewrite core_leave by exact Hq. apply IH.
  - rewrite core_open by auto. rewrite fold_left_app, IHi. simpl.
    change (closerOf Ch.lbrace) with Ch.rbrace.
    rewrite core_close by reflexivity. apply IHs.
  - rewrite core_open by auto. rewrite fold_left_app, IHi. simpl.
    change (closerOf Ch.lbracket) with Ch.rbracket.
    rewrite core_close by reflexivity. apply IHs.
Qed.

Lemma valid_unchanged (x : jsstring) :
  StructurallyValid x ->
  validateAndBalance DEFAULT_CONFIG x = {| balanced := x; dummyValues := [] |}.
Proof.
  intros Hx. destruct x as [|c x]; [reflexivity|].
  rewrite validateAndBalance_nonempty by discriminate.
  pose proof (bracketScan_core (c :: x)) as Hcore.
  unfold structureOf in Hcore. rewrite (scan_valid Hx) in Hcore.
  injection Hcore as Hstk Hstr.
  assert (Hq : balanceQuotes DEFAULT_CONFIG (c :: x)
               = {| balanced := c :: x; dummyValues := [] |}).
  { unfold balanceQuotes. simpl cfg_quoteType.
    rewrite <- bracketScan_strState, Hstr. reflexivity. }
  simpl cfg_balanceQuotes. cbv iota zeta. rewrite Hq.
  simpl balanced. simpl dummyValues.
  unfold balanceBrackets. rewrite Hstk. simpl isEmpty. simpl negb.
  rewrite andb_false_r. cbv iota beta zeta. simpl.
  rewrite ?app_nil_r. reflexivity.
Qed.

(** C8.  On a text whose quotes and brackets are all closed the one-shot
    balance (default configuration) changes nothing and inserts nothing;
    balancing its result once more therefore yields the same text. *)
Theorem C8_idempotent_on_closed_text (x : jsstring) :
  StructurallyValid x ->
  validateAndBalance DEFAULT_CONFIG x = {| balanced := x; dummyValues := [] |}
  /\ balanced (validateAndBalance DEFAULT_CONFIG
                 (balanced (validateAndBalance DEFAULT_CONFIG x)))
     = balanced (validateAndBalance DEFAULT_CONFIG x)
  /\ (forall (jsvalue : Type) (js_null : jsvalue)
             (JSON_parse : jsstring -> completion jsvalue),
         fst (validateStreamingJson js_null JSON_parse x empty_config)
         = Normal (Text x)).
Proof.
  intros Hx. pose proof (valid_unchanged Hx) as H.
  split; [exact H|]. split.
  - rewrite H. simpl balanced. rewrite H. reflexivity.
  - intros jsvalue js_null JSON_parse.
    rewrite validateStreamingJson_text by reflexivity.
    change (mergeConfig DEFAULT_CONFIG empty_config) with DEFAULT_CONFIG.
    rewrite H. reflexivity.
Qed.

Lemma valid_sample : StructurallyValid (txt "{`a`: [1, `x\`y`]}").
Proof.
  apply (@valid_object (txt "`a`: [1, `x\`y`]") []); [|constructor].
  apply (@valid_string Ch.dquote (txt "a") (txt ": [1, `x\`y`]"));
    [reflexivity | repeat (constructor; try discriminate) |].
  apply valid_plain; [reflexivity|].
  apply valid_plain; [reflexivity|].
  apply (@valid_array (txt "1, `x\`y`") []); [|constructor].
  apply valid_plain; [reflexivity|].
  apply valid_plain; [reflexivity|].
  apply valid_plain; [reflexivity|].
  apply (@valid_string Ch.dquote (txt "x\`y") []); [reflexivity | | constructor].
  apply body_char; [discriminate | discriminate |].
  apply body_escape.
  apply body_char; [discriminate | discriminate |].
  constructor.
Qed.

Lemma C8_idempotent_on_closed_text_witness :
  StructurallyValid (txt "{`a`: [1, `x\`y`]}")
  /\ validateAndBalance DEFAULT_CONFIG (txt "{`a`: [1, `x\`y`]}")
     = {| balanced := txt "{`a`: [1, `x\`y`]}"; dummyValues := [] |}.
Proof.
  split; [exact valid_sample|].
  exact (proj1 (C8_idempotent_on_closed_text valid_sample)).
Defined.

(** ** The session at work *)

Lemma parseLiteral_blank (ws : jsstring) :
  forallb isWhitespace ws = true -> exists e, parseLiteral ws = Throw e.
Proof.
  intros H. unfold parseLiteral.
  repeat match goal with
         | |- context [jsstring_eqb ws ?l] =>
             destruct (jsstring_eqb ws l) eqn:?E;
             [apply jsstring_eqb_eq in E; subst ws; discriminate H | clear E]
         end.
  eauto.
Qed.

Example stream_reassembled :
  lastBalancedString
    (feed (newParser LNull empty_config)
          [ txt "{`response`:"; txt " `This is a "; txt "streaming response`,";
            txt " `data`: [1,"; txt " 2, 3], `status`:"; txt " `complete`}" ])
  = txt "{`response`: `This is a streaming response`, `data`: [1, 2, 3], `status`: `complete`}".
Proof. vm_compute. reflexivity. Qed.

Example stream_snapshots :
  map (fun chunks => lastBalancedString (feed (newParser LNull empty_config) chunks))
      [ [ txt "{`response`:" ];
        [ txt "{`response`:"; txt " `This is a " ];
        [ txt "{`response`:"; txt " `This is a "; txt "streaming response`," ] ]
  = [ txt "{`response`:null}";
      txt "{`response`: `This is a `}";
      txt "{`response`: `This is a streaming response`,}" ].
Proof. vm_compute. reflexivity. Qed.

Lemma C2_retract_then_rebalance_witness :
  reachable LNull parseLiteral afterColon
  /\ exists (ds : list Dummy) (base : jsstring),
      Permutation ds (addedDummyValues afterColon)
      /\ byPositionDescending ds
      /\ retractedAll ds (lastBalancedString afterColon) base
      /\ let p' := parserOf (appendChunk parseLiteral (txt " 1}") afterColon) in
         let balancedResult :=
           validateAndBalance (config afterColon) (base ++ txt " 1}") in
         lastBalancedString p' = balanced balancedResult
         /\ addedDummyValues p' = dummyValues balancedResult
         /\ config p' = config afterColon.
Proof.
  assert (Hreach : reachable LNull parseLiteral afterColon)
    by (apply reach_appendChunk, reach_new).
  split; [exact Hreach|].
  exact (@C2_retract_then_rebalance _ LNull parseLiteral afterColon (txt " 1}") Hreach).
Defined.

Lemma C6_total_and_blank_unchanged_witness :
  (forall ws, forallb isWhitespace ws = true -> exists e, parseLiteral ws = Throw e)
  /\ fst (validateStreamingJson LNull parseLiteral (txt "   ") parsingConfig)
     = Normal (Text (txt "   "))
  /\ fst (validateStreamingJson LNull parseLiteral [] parsingConfig)
     = Normal (Text []).
Proof.
  split; [exact parseLiteral_blank|].
  destruct (@C6_total_and_blank_unchanged _ LNull parseLiteral parseLiteral_blank
              parsingConfig)
    as [_ [_ [[Hempty _] Hblank]]].
  split; [|exact Hempty].
  apply Hblank. reflexivity.
Defined.

Lemma C7_decode_failure_falls_back_witness :
  let p := newParser LNull parsingConfig in
  let chunk := txt "{`invalid`: invalid_value" in
  cfg_returnParsedJson (config p) = true
  /\ parseLiteral (lastBalancedString (rebalanced p chunk))
     = Throw (ErrorObject (txt "Unexpected token"))
  /\ resultOf (appendChunk parseLiteral chunk p)
     = Normal (Text (lastBalancedString (rebalanced p chunk))).
Proof.
  intros p chunk.
  assert (Hcfg : cfg_returnParsedJson (config p) = true) by reflexivity.
  assert (Hfail : parseLiteral (lastBalancedString (rebalanced p chunk))
                  = Throw (ErrorObject (txt "Unexpected token")))
    by (vm_compute; reflexivity).
  split; [exact Hcfg|]. split; [exact Hfail|].
  exact (proj1 (@C7_decode_failure_falls_back _ parseLiteral p chunk _ Hcfg Hfail)).
Defined.

Lemma C10_failed_decode_keeps_parsed_value_witness :
  let chunk := txt "{" in
  cfg_returnParsedJson (config afterTrue) = true
  /\ parseLiteral (lastBalancedString (rebalanced afterTrue chunk))
     = Throw (ErrorObject (txt "Unexpected token"))
  /\ lastParsedData afterTrue = LTrue
  /\ resultOf (appendChunk parseLiteral chunk afterTrue) = Normal (Text (txt "true{}"))
  /\ resultOf (getCurrentData
                 (parserOf (appendChunk parseLiteral chunk afterTrue)))
     = Normal (Parsed LTrue).
Proof.
  intros chunk.
  assert (Hcfg : cfg_returnParsedJson (config afterTrue) = true) by reflexivity.
  assert (Hfail : parseLiteral (lastBalancedString (rebalanced afterTrue chunk))
                  = Throw (ErrorObject (txt "Unexpected token")))
    by (vm_compute; reflexivity).
  destruct (@C10_failed_decode_keeps_parsed_value _ parseLiteral afterTrue chunk _
              Hcfg Hfail)
    as [Hres [_ Hget]].
  split; [exact Hcfg|]. split; [exact Hfail|]. split; [reflexivity|].
  split; [exact Hres | exact Hget].
Defined.


(** * Further properties of the code *)

(** ** The layout of the insertions *)

Lemma balanceQuotes_eq (cfg : Config) (input : jsstring) :
  let q := quoteFor (quoteScan (cfg_quoteType cfg) input) in
  balanceQuotes cfg input
  = {| balanced := input ++ q; dummyValues := quoteRecords (len input) q |}.
Proof.
  unfold balanceQuotes, quoteFor. cbv zeta.
  destruct (inString _); [destruct (stringChar _)|]; rewrite ?app_nil_r;
    try reflexivity.
  unfold quoteRecords. rewrite len_app. unfold len at 2. simpl List.length.
  replace (len input + Z.of_nat 1 - 1)%Z with (len input) by lia.
  reflexivity.
Qed.

Lemma balanceBrackets_eq (t : jsstring) :
  let st := bracketScan t in
  balanceBrackets t
  = {| balanced := t ++ valueFor st ++ stack st;
       dummyValues :=
         valueRecords (len t) (valueFor st)
         ++ bracketRecords (len t + len (valueFor st)) (stack st) |}.
Proof.
  cbv zeta. unfold balanceBrackets, valueFor.
  set (st := bracketScan t).
  destruct (ochar_eqb Ch.colon (lastNonWhitespaceChar st)) eqn:Hc.
  - destruct (isEmpty (stack st)); cbn [negb orb andb]; cbv beta iota zeta.
    + rewrite closeRemaining_eq. cbn [app valueRecords].
      change (len []) with 0%Z. rewrite Z.add_0_r. reflexivity.
    + rewrite closeRemaining_eq. rewrite len_app.
      change (len (txt "null")) with 4%Z.
      replace (len t + 4 - 4)%Z with (len t) by lia.
      rewrite <- app_assoc. reflexivity.
  - rewrite andb_false_r.
    destruct ((false || ochar_eqb Ch.lbracket (lastNonWhitespaceChar st)
               || ochar_eqb Ch.comma (lastNonWhitespaceChar st))
              && negb (isEmpty (stack st)));
      rewrite closeRemaining_eq; cbn [app valueRecords];
      change (len []) with 0%Z; rewrite Z.add_0_r; reflexivity.
Qed.

Lemma insertedText_app (a b : list Dummy) :
  insertedText (a ++ b) = insertedText a ++ insertedText b.
Proof. unfold insertedText. rewrite map_app, concat_app. reflexivity. Qed.

Lemma laidOutFrom_app (a : list Dummy) :
  forall start b,
    laidOutFrom start a ->
    laidOutFrom (start + len (insertedText a)) b ->
    laidOutFrom start (a ++ b).
Proof.
  induction a as [|d a IH]; intros start b Ha Hb; simpl in *.
  - change (len (insertedText [])) with 0%Z in Hb.
    rewrite Z.add_0_r in Hb. exact Hb.
  - destruct Ha as [Hd Ha]. split; [exact Hd|].
    apply IH; [exact Ha|].
    change (insertedText (d :: a)) with (value d ++ insertedText a) in Hb.
    rewrite len_app in Hb. rewrite <- Z.add_assoc. exact Hb.
Qed.

Lemma bracketRecords_text (stk : list char) :
  forall start, insertedText (bracketRecords start stk) = stk.
Proof.
  induction stk as [|c rest IH]; intros start; [reflexivity|].
  simpl bracketRecords.
  change (insertedText (?d :: ?l)) with (value d ++ insertedText l).
  simpl value. rewrite IH. reflexivity.
Qed.

Lemma bracketRecords_laidOut (stk : list char) :
  forall start, laidOutFrom start (bracketRecords start stk).
Proof.
  induction stk as [|c rest IH]; intros start; simpl; [exact I|].
  split; [reflexivity | apply IH].
Qed.

Lemma valueRecords_text (start : Z) (v : jsstring) :
  insertedText (valueRecords start v) = v.
Proof.
  destruct v; [reflexivity|]. unfold insertedText. simpl.
  rewrite app_nil_r. reflexivity.
Qed.

Lemma valueRecords_laidOut (start : Z) (v : jsstring) :
  laidOutFrom start (valueRecords start v).
Proof. destruct v; simpl; auto. Qed.

Lemma quoteRecords_text (start : Z) (q : jsstring) :
  insertedText (quoteRecords start q) = q.
Proof.
  destruct q; [reflexivity|]. unfold insertedText. simpl.
  rewrite app_nil_r. reflexivity.
Qed.

Lemma quoteRecords_laidOut (start : Z) (q : jsstring) :
  laidOutFrom start (quoteRecords start q).
Proof. destruct q; simpl; auto. Qed.

Lemma balanceBrackets_layout (t : jsstring) :
  balanced (balanceBrackets t) = t ++ insertedText (dummyValues (balanceBrackets t))
  /\ laidOutFrom (len t) (dummyValues (balanceBrackets t)).
Proof.
  rewrite balanceBrackets_eq. cbv zeta. simpl balanced. simpl dummyValues. split.
  - rewrite insertedText_app, valueRecords_text, bracketRecords_text. reflexivity.
  - apply laidOutFrom_app; [apply valueRecords_laidOut|].
    rewrite valueRecords_text. apply bracketRecords_laidOut.
Qed.

Lemma validateAndBalance_layout (cfg : Config) (input : jsstring) :
  balanced (validateAndBalance cfg input)
  = input ++ insertedText (dummyValues (validateAndBalance cfg input))
  /\ laidOutFrom (len input) (dummyValues (validateAndBalance cfg input)).
Proof.
  destruct input as [|c0 input]; [split; [reflexivity | exact I]|].
  rewrite validateAndBalance_nonempty by discriminate.
  cbv zeta. cbn [balanced dummyValues].
  set (quoteResult := if cfg_balanceQuotes cfg then balanceQuotes cfg (c0 :: input)
                      else {| balanced := c0 :: input; dummyValues := [] |}).
  assert (Hq : balanced quoteResult
               = (c0 :: input) ++ insertedText (dummyValues quoteResult)
               /\ laidOutFrom (len (c0 :: input)) (dummyValues quoteResult)).
  { subst quoteResult. destruct (cfg_balanceQuotes cfg).
    - rewrite balanceQuotes_eq. cbv zeta. simpl balanced. simpl dummyValues.
      rewrite quoteRecords_text. split; [reflexivity | apply quoteRecords_laidOut].
    - simpl. rewrite app_nil_r. split; [reflexivity | exact I]. }
  destruct Hq as [Hqt Hql].
  destruct (balanceBrackets_layout (balanced quoteResult)) as [Hbt Hbl].
  split.
  - rewrite Hbt at 1. rewrite Hqt at 1. rewrite insertedText_app.
    rewrite <- app_assoc. reflexivity.
  - apply laidOutFrom_app; [exact Hql|].
    rewrite <- len_app, <- Hqt. exact Hbl.
Qed.

Lemma laidOutFrom_lower (ds : list Dummy) :
  forall start,
    laidOutFrom start ds ->
    Forall (fun d => (start <= position d)%Z) ds.
Proof.
  induction ds as [|d ds IH]; intros start H; constructor.
  - destruct H as [-> _]. lia.
  - destruct H as [_ H]. apply IH in H.
    eapply Forall_impl; [|exact H]. simpl. intros e He.
    unfold len in He. lia.
Qed.

Lemma laidOutFrom_ascending (ds : list Dummy) :
  forall start,
    laidOutFrom start ds ->
    Forall (fun d => value d <> []) ds ->
    positionsAscending ds.
Proof.
  unfold positionsAscending.
  induction ds as [|d ds IH]; intros start H Hne; constructor.
  - destruct H as [_ H]. inversion Hne; subst. eapply IH; eassumption.
  - destruct H as [Hd H]. inversion Hne as [|? ? Hv _]; subst.
    apply laidOutFrom_lower in H.
    eapply Forall_impl; [|exact H]. simpl. intros e He.
    assert (0 < len (value d))%Z; [|lia].
    unfold len. destruct (value d); [congruence | simpl; lia].
Qed.

Lemma laidOutFrom_substrings (ds : list Dummy) :
  forall pre,
    laidOutFrom (len pre) ds ->
    Forall (fun d => substringAt (pre ++ insertedText ds) (position d)
                                 (List.length (value d)) = value d) ds.
Proof.
  induction ds as [|d ds IH]; intros pre H; constructor.
  - destruct H as [-> _]. unfold substringAt, len. rewrite Nat2Z.id.
    rewrite skipn_app, skipn_all.
    replace (List.length pre - List.length pre)%nat with 0%nat by lia.
    change (insertedText (d :: ds)) with (value d ++ insertedText ds).
    cbn [skipn app]. rewrite firstn_app.
    replace (List.length (value d) - List.length (value d))%nat with 0%nat by lia.
    rewrite firstn_all. cbn [firstn]. apply app_nil_r.
  - destruct H as [_ H]. rewrite <- len_app in H. apply IH in H.
    change (insertedText (d :: ds)) with (value d ++ insertedText ds).
    rewrite app_assoc. exact H.
Qed.

Lemma validateAndBalance_nonempty_values (cfg : Config) (input : jsstring) :
  Forall (fun d => value d <> []) (dummyValues (validateAndBalance cfg input)).
Proof.
  eapply Forall_impl; [|apply validateAndBalance_shape].
  apply dummyShape_nonempty.
Qed.

(** X1.  The balanced text is the input followed by the recorded literals,
    in the order of the records, and by nothing else; its length is that of
    the input plus those of the recorded literals. *)
Theorem X1_output_is_input_plus_insertions (cfg : Config) (input : jsstring) :
  let r := validateAndBalance cfg input in
  balanced r = input ++ insertedText (dummyValues r)
  /\ len (balanced r) = (len input + len (insertedText (dummyValues r)))%Z.
Proof.
  cbv zeta. destruct (validateAndBalance_layout cfg input) as [Ht _].
  split; [exact Ht|].
  rewrite Ht at 1. apply len_app.
Qed.

(** X2.  Every record points at its own literal in the balanced text, the
    positions go up strictly along the list of records, and none lies
    before the end of the input. *)
Theorem X2_positions_point_at_literals (cfg : Config) (input : jsstring) :
  let r := validateAndBalance cfg input in
  Forall (fun d => substringAt (balanced r) (position d) (List.length (value d))
                   = value d) (dummyValues r)
  /\ positionsAscending (dummyValues r)
  /\ Forall (fun d => (len input <= position d)%Z) (dummyValues r).
Proof.
  cbv zeta. destruct (validateAndBalance_layout cfg input) as [Ht Hl].
  split; [|split].
  - rewrite Ht. apply laidOutFrom_substrings, Hl.
  - eapply laidOutFrom_ascending;
      [exact Hl | apply validateAndBalance_nonempty_values].
  - apply laidOutFrom_lower, Hl.
Qed.

(** ** Retraction undoes the balance *)

Lemma retractStep_app (base : jsstring) (d : Dummy) :
  value d <> [] -> retractStep (base ++ value d) d = base.
Proof.
  intros Hv. unfold retractStep.
  assert (H : endsWith (base ++ value d) (value d) = true)
    by (apply endsWith_iff; eauto).
  rewrite H. apply sliceOffEnd_app, Hv.
Qed.

Lemma retract_reversed (ds : list Dummy) :
  forall input,
    Forall (fun d => value d <> []) ds ->
    fold_left retractStep (rev ds) (input ++ insertedText ds) = input.
Proof.
  induction ds as [|d ds IH] using rev_ind; intros input H.
  - simpl. apply app_nil_r.
  - apply Forall_app in H as [Hds Hd]. inversion Hd as [|? ? Hv _]; subst.
    rewrite rev_app_distr, insertedText_app. simpl rev. simpl fold_left.
    unfold insertedText at 2. simpl. rewrite app_nil_r, app_assoc.
    rewrite retractStep_app by exact Hv. apply IH, Hds.
Qed.

Lemma insertByPosition_last (d : Dummy) (l : list Dummy) :
  Forall (fun e => (position d < position e)%Z) l ->
  insertByPosition d l = l ++ [d].
Proof.
  induction l as [|e l IH]; intros H; simpl; [reflexivity|].
  inversion H as [|? ? He Hl]; subst.
  apply Z.ltb_lt in He. rewrite He, IH by exact Hl. reflexivity.
Qed.

(** On records of ascending position the sort of [appendChunk] is a plain
    reversal: the last record comes first. *)
Lemma sortedDummies_ascending (ds : list Dummy) :
  positionsAscending ds -> sortedDummies ds = rev ds.
Proof.
  unfold positionsAscending. induction 1 as [|d ds _ IH Hd]; [reflexivity|].
  simpl. rewrite IH. apply insertByPosition_last.
  apply Forall_rev. exact Hd.
Qed.

Lemma retractDummies_validateAndBalance (cfg : Config) (input : jsstring) :
  retractDummies (balanced (validateAndBalance cfg input))
                 (dummyValues (validateAndBalance cfg input))
  = input.
Proof.
  destruct (validateAndBalance_layout cfg input) as [Ht Hl].
  pose proof (validateAndBalance_nonempty_values cfg input) as Hne.
  rewrite retractDummies_fold.
  rewrite sortedDummies_ascending
    by (eapply laidOutFrom_ascending; eassumption).
  rewrite Ht at 1. apply retract_reversed, Hne.
Qed.

(** X3.  Retraction undoes the balance: taking the recorded insertions
    back out of the balanced text, as [appendChunk] does before it appends
    a chunk, gives the text that was balanced, under every configuration.
    The order in which it takes them, by descending position, is the
    reverse of the order in which they were recorded. *)
Theorem X3_retraction_recovers_the_input (cfg : Config) (input : jsstring) :
  let r := validateAndBalance cfg input in
  retractDummies (balanced r) (dummyValues r) = input
  /\ sortedDummies (dummyValues r) = rev (dummyValues r).
Proof.
  cbv zeta. split; [apply retractDummies_validateAndBalance|].
  destruct (validateAndBalance_layout cfg input) as [_ Hl].
  apply sortedDummies_ascending.
  eapply laidOutFrom_ascending; [exact Hl|].
  apply validateAndBalance_nonempty_values.
Qed.

(** Whatever the records, the loop only ever cuts the text at its end. *)
Lemma retractStep_prefix (text : jsstring) (d : Dummy) :
  exists removed, text = retractStep text d ++ removed.
Proof.
  unfold retractStep. destruct (endsWith _ _); [|exists []; symmetry; apply app_nil_r].
  unfold sliceOffEnd. destruct (List.length (value d)).
  - exists text. reflexivity.
  - eexists. symmetry. apply firstn_skipn.
Qed.

Lemma retractSteps_prefix (ds : list Dummy) :
  forall text, exists removed, text = fold_left retractStep ds text ++ removed.
Proof.
  induction ds as [|d ds IH]; intros text; simpl.
  - exists []. symmetry. apply app_nil_r.
  - destruct (IH (retractStep text d)) as [r1 H1].
    destruct (retractStep_prefix text d) as [r2 H2].
    exists (r1 ++ r2). rewrite app_assoc, <- H1. exact H2.
Qed.

(** X4.  Retraction never adds to the text and never touches anything but
    its end: for every text and every list of records, however they came
    about, what is left is a prefix of the text. *)
Theorem X4_retraction_leaves_a_prefix (text : jsstring) (dummies : list Dummy) :
  exists removed, text = retractDummies text dummies ++ removed.
Proof. rewrite retractDummies_fold. apply retractSteps_prefix. Qed.

(** ** Streaming is balancing the concatenation *)

Section Streaming.

Variable jsvalue : Type.
Variable js_null : jsvalue.
Variable JSON_parse : jsstring -> completion jsvalue.

Let Parser := StreamingJsonParser jsvalue.

(** The parser holds the balance of the raw text [acc], under whatever
    configuration it was made. *)
Lemma newInput_of_balance (p : Parser) (cfg0 : Config) (acc chunk : jsstring) :
  lastBalancedString p = balanced (validateAndBalance cfg0 acc) ->
  addedDummyValues p = dummyValues (validateAndBalance cfg0 acc) ->
  newInput p chunk = acc ++ chunk.
Proof.
  intros Ht Hd. unfold newInput. rewrite Ht, Hd.
  rewrite retractDummies_validateAndBalance.
  destruct (balanced (validateAndBalance cfg0 acc)) eqn:E; [|reflexivity].
  destruct (validateAndBalance_appends cfg0 acc) as [q [v [cl [H _]]]].
  rewrite E in H. symmetry in H. apply app_eq_nil in H as [-> _]. reflexivity.
Qed.

Lemma appendChunk_config (p : Parser) (chunk : jsstring) :
  config (parserOf (appendChunk JSON_parse chunk p)) = config p.
Proof. apply appendChunk_parser. Qed.

Lemma appendChunks_balance (chunks : list jsstring) :
  forall (p : Parser) (acc : jsstring),
    lastBalancedString p = balanced (validateAndBalance (config p) acc) ->
    addedDummyValues p = dummyValues (validateAndBalance (config p) acc) ->
    let p' := appendChunks JSON_parse p chunks in
    config p' = config p
    /\ lastBalancedString p'
       = balanced (validateAndBalance (config p) (acc ++ List.concat chunks))
    /\ addedDummyValues p'
       = dummyValues (validateAndBalance (config p) (acc ++ List.concat chunks)).
Proof.
  induction chunks as [|chunk chunks IH]; intros p acc Ht Hd; cbv zeta.
  - simpl. rewrite app_nil_r. auto.
  - simpl appendChunks. unfold appendChunks in *. simpl fold_left.
    destruct (appendChunk_parser JSON_parse p chunk) as [Hc [Ht' Hd']].
    cbv zeta in Hc, Ht', Hd'.
    unfold rebalanced in Ht', Hd'. simpl in Ht', Hd'.
    rewrite (@newInput_of_balance p (config p) acc chunk Ht Hd) in Ht', Hd'.
    rewrite <- Hc in Ht', Hd'.
    destruct (@IH _ _ Ht' Hd') as [Hc2 [Ht2 Hd2]].
    rewrite Hc in Hc2, Ht2, Hd2.
    simpl List.concat. rewrite app_assoc. auto.
Qed.

(** X5.  Appending chunks one by one to a fresh parser leaves it with the
    balance of their concatenation: the stored text and the stored
    insertions are those of a single balance of all the chunks joined, and
    the configuration is the one the parser was made with. *)
Theorem X5_streaming_balances_the_concatenation
  (cfg : JsonParserConfig) (chunks : list jsstring) :
  let p := appendChunks JSON_parse (createStreamingParser js_null cfg) chunks in
  let r := validateAndBalance (mergeConfig DEFAULT_CONFIG cfg) (List.concat chunks) in
  config p = mergeConfig DEFAULT_CONFIG cfg
  /\ lastBalancedString p = balanced r
  /\ addedDummyValues p = dummyValues r.
Proof.
  cbv zeta.
  apply (@appendChunks_balance chunks (createStreamingParser js_null cfg) []);
    reflexivity.
Qed.

(** X6.  What the last [appendChunk] of a stream hands back, warnings
    included, is what the one-shot operation hands back on the chunks
    joined into one text. *)
Theorem X6_last_result_is_the_one_shot_result
  (cfg : JsonParserConfig) (chunks : list jsstring) (chunk : jsstring) :
  let r := appendChunk JSON_parse chunk
             (appendChunks JSON_parse (createStreamingParser js_null cfg) chunks) in
  (resultOf r, warningsOf r)
  = validateStreamingJson js_null JSON_parse (List.concat chunks ++ chunk) cfg.
Proof.
  cbv zeta.
  destruct (@appendChunks_balance chunks (createStreamingParser js_null cfg) []
              eq_refl eq_refl) as [Hc [Ht Hd]].
  set (p := appendChunks JSON_parse (createStreamingParser js_null cfg) chunks) in *.
  unfold validateStreamingJson. rewrite !appendChunk_run. cbv zeta.
  assert (Hre : lastBalancedString (rebalanced p chunk)
                = lastBalancedString
                    (rebalanced (newParser js_null cfg) (List.concat chunks ++ chunk))).
  { unfold rebalanced. simpl lastBalancedString.
    rewrite (@newInput_of_balance p _ _ chunk Ht Hd). rewrite Hc. reflexivity. }
  rewrite Hc, Hre. change (config (createStreamingParser js_null cfg))
    with (config (newParser js_null cfg)).
  destruct (cfg_returnParsedJson _); [destruct (JSON_parse _)|]; reflexivity.
Qed.

End Streaming.

(** ** Fixed points of the balance *)

Lemma quoteFor_nil (q : QuoteState) :
  strInv q -> (quoteFor q = [] <-> inString q = false).
Proof.
  unfold strInv, quoteFor. destruct (inString q), (stringChar q); intros H;
    split; intros E; try reflexivity; try discriminate; contradiction.
Qed.

Lemma closed_unchanged (t : jsstring) :
  structurallyClosed t ->
  validateAndBalance DEFAULT_CONFIG t = {| balanced := t; dummyValues := [] |}.
Proof.
  intros [Hstk Hin]. destruct t as [|c t]; [reflexivity|].
  rewrite validateAndBalance_nonempty by discriminate.
  simpl cfg_balanceQuotes. cbv iota zeta.
  rewrite balanceQuotes_eq. cbv zeta. simpl cfg_quoteType.
  rewrite bracketScan_strState in Hin.
  assert (Hq : quoteFor (quoteScan Both (c :: t)) = [])
    by (apply quoteFor_nil; [apply quoteScan_inv | exact Hin]).
  rewrite Hq. cbn [balanced dummyValues quoteRecords]. rewrite app_nil_r.
  rewrite balanceBrackets_eq. cbv zeta. unfold valueFor. rewrite Hstk.
  cbn [isEmpty negb andb app valueRecords bracketRecords balanced dummyValues].
  rewrite app_nil_r. reflexivity.
Qed.

Lemma unchanged_closed (t : jsstring) :
  balanced (validateAndBalance DEFAULT_CONFIG t) = t -> structurallyClosed t.
Proof.
  destruct t as [|c t]; [intros _; split; reflexivity|].
  rewrite validateAndBalance_nonempty by discriminate.
  simpl cfg_balanceQuotes. cbv iota zeta.
  rewrite balanceQuotes_eq. cbv zeta. simpl cfg_quoteType.
  cbn [balanced]. rewrite balanceBrackets_eq. cbv zeta. cbn [balanced].
  rewrite <- app_assoc. intros H.
  set (q := quoteFor (quoteScan Both (c :: t))) in *.
  assert (H' : (c :: t) ++ q ++ valueFor (bracketScan ((c :: t) ++ q))
                              ++ stack (bracketScan ((c :: t) ++ q))
               = (c :: t) ++ []) by (rewrite app_nil_r; exact H).
  apply app_inv_head in H'.
  apply app_eq_nil in H' as [Hq H']. apply app_eq_nil in H' as [_ Hstk].
  rewrite Hq, app_nil_r in Hstk.
  split; [exact Hstk|].
  rewrite bracketScan_strState.
  apply quoteFor_nil; [apply quoteScan_inv | exact Hq].
Qed.

(** X7.  Under the default configuration the balance returns a text as it
    is exactly when the scan of the bracket pass finds it closed: stack
    empty and no string open at its end.  And exactly then it records no
    insertion. *)
Theorem X7_unchanged_iff_closed (t : jsstring) :
  (balanced (validateAndBalance DEFAULT_CONFIG t) = t <-> structurallyClosed t)
  /\ (validateAndBalance DEFAULT_CONFIG t = {| balanced := t; dummyValues := [] |}
      <-> structurallyClosed t).
Proof.
  split; split.
  - apply unchanged_closed.
  - intros H. rewrite (closed_unchanged H). reflexivity.
  - intros H. apply unchanged_closed. rewrite H. reflexivity.
  - apply closed_unchanged.
Qed.

(** X8.  Under the default configuration the balance is idempotent on
    every input that does not end in a pending escape: balancing its own
    output changes nothing and records no insertion. *)
Theorem X8_idempotent_without_pending_escape (x : jsstring) :
  endsInEscape x = false ->
  let output := balanced (validateAndBalance DEFAULT_CONFIG x) in
  validateAndBalance DEFAULT_CONFIG output
  = {| balanced := output; dummyValues := [] |}.
Proof.
  intros H. cbv zeta.
  apply closed_unchanged, closure_without_pending_escape, H.
Qed.

(** ** The quote pass under every [quoteType] *)

Lemma processes_quote (qt : QuoteType) (c : char) :
  processes qt c = true -> isQuote c = true.
Proof.
  destruct qt; simpl; intros H; try exact H;
    apply char_eqb_eq in H; subst c; reflexivity.
Qed.

Lemma quoteStep_invFor (qt : QuoteType) (q : QuoteState) (c : char) :
  strInvFor qt q -> strInvFor qt (quoteStep qt q c).
Proof.
  unfold strInvFor, quoteStep. destruct q as [ins sc esc]; simpl.
  destruct esc; simpl; [tauto|].
  destruct (char_eqb c Ch.backslash); simpl; [tauto|].
  destruct (_ && isQuote c) eqn:E; simpl; [|tauto].
  apply andb_true_iff in E as [Hp Hq].
  destruct ins; simpl.
  - destruct sc as [s|]; simpl; [|tauto].
    destruct (char_eqb c s); simpl; tauto.
  - intros _. destruct qt; simpl; assumption.
Qed.

Lemma quoteScan_invFor (qt : QuoteType) (s : jsstring) :
  strInvFor qt (quoteScan qt s).
Proof.
  unfold quoteScan.
  assert (H : forall q, strInvFor qt q -> strInvFor qt (fold_left (quoteStep qt) s q)).
  { induction s as [|c s IH]; intros q Hq; simpl; [exact Hq|].
    apply IH, quoteStep_invFor, Hq. }
  apply H. exact I.
Qed.

Lemma quoteStep_closes (qt : QuoteType) (c : char) :
  processes qt c = true ->
  quoteStep qt (inside c) c = quoteInit.
Proof.
  intros Hp. pose proof (processes_quote qt c Hp) as Hq.
  unfold quoteStep, inside. simpl.
  assert (Hb : char_eqb c Ch.backslash = false)
    by (apply isQuote_cases in Hq as [-> | ->]; reflexivity).
  rewrite Hb, Hq, andb_true_r.
  assert (Hs : match qt with
               | Both => true
               | Double => char_eqb c Ch.dquote
               | Single => char_eqb c Ch.squote
               end = true)
    by (destruct qt; simpl in Hp; auto).
  rewrite Hs, char_eqb_refl. reflexivity.
Qed.

(** X9.  Under every [quoteType], on every input that does not end in a
    pending escape, the quote pass does what it is for: its own scan of
    its output ends outside any string. *)
Theorem X9_quote_pass_closes_its_string (cfg : Config) (input : jsstring) :
  endsInEscape input = false ->
  quoteScan (cfg_quoteType cfg) (balanced (balanceQuotes cfg input)) = quoteInit.
Proof.
  intros Hesc. rewrite balanceQuotes_eq. cbv zeta. cbn [balanced].
  set (qt := cfg_quoteType cfg).
  pose proof (quoteScan_invFor qt input) as Hinv.
  pose proof (quoteScan_escaped qt input) as He. rewrite Hesc in He.
  unfold quoteFor, strInvFor in *.
  destruct (quoteScan qt input) as [ins sc esc] eqn:E. simpl in *. subst esc.
  destruct ins, sc as [c|]; try contradiction.
  - unfold quoteScan in *. rewrite fold_left_app, E. simpl.
    apply (quoteStep_closes qt c Hinv).
  - rewrite app_nil_r. exact E.
Qed.

(** ** Trailing whitespace *)

Lemma validateAndBalance_balanced_eq (cfg : Config) (t : jsstring) :
  t <> [] ->
  let q := if cfg_balanceQuotes cfg
           then quoteFor (quoteScan (cfg_quoteType cfg) t) else [] in
  let st := bracketScan (t ++ q) in
  balanced (validateAndBalance cfg t) = t ++ q ++ valueFor st ++ stack st.
Proof.
  intros Hne. cbv zeta. rewrite validateAndBalance_nonempty by exact Hne.
  cbv zeta. cbn [balanced].
  destruct (cfg_balanceQuotes cfg).
  - rewrite balanceQuotes_eq. cbv zeta. cbn [balanced].
    rewrite balanceBrackets_eq. cbv zeta. cbn [balanced].
    rewrite <- app_assoc. reflexivity.
  - cbn [balanced]. rewrite balanceBrackets_eq. cbv zeta. cbn [balanced].
    rewrite app_nil_r. reflexivity.
Qed.

Lemma whitespace_quoteStep_unescaped (qt : QuoteType) (q : QuoteState) (c : char) :
  isWhitespace c = true -> escaped q = false -> quoteStep qt q c = q.
Proof.
  intros H He. apply whitespace_plain in H. unfold isPlain in H.
  apply negb_true_iff in H. repeat (apply orb_false_iff in H as [H ?]).
  unfold quoteStep. rewrite He.
  repeat match goal with E : _ = false |- _ => rewrite E; clear E end.
  rewrite andb_false_r. reflexivity.
Qed.

Lemma whitespace_quoteScan (qt : QuoteType) (ws : jsstring) :
  forall q, forallb isWhitespace ws = true -> escaped q = false ->
            fold_left (quoteStep qt) ws q = q.
Proof.
  induction ws as [|c ws IH]; intros q H He; simpl; [reflexivity|].
  simpl in H. apply andb_true_iff in H as [Hc Hws].
  rewrite whitespace_quoteStep_unescaped by assumption. apply IH; assumption.
Qed.

Lemma whitespace_bracketStep (i : Z) (st : BracketState) (c : char) :
  isWhitespace c = true ->
  escaped (strState st) = false ->
  strInv (strState st) ->
  bracketStep i st c = st.
Proof.
  intros Hw He Hinv. pose proof (whitespace_plain c Hw) as H.
  unfold isPlain in H. apply negb_true_iff in H.
  repeat (apply orb_false_iff in H as [H ?]).
  destruct st as [stk [ins sc esc] lc li]. simpl in He, Hinv. subst esc.
  unfold strInv in Hinv. simpl in Hinv.
  unfold bracketStep, stackStep. simpl.
  repeat match goal with E : _ = false |- _ => rewrite E; clear E end.
  rewrite Hw. simpl.
  destruct ins; simpl.
  - destruct sc as [s|]; [|contradiction]. simpl.
    destruct (char_eqb c s) eqn:E; [|reflexivity].
    apply char_eqb_eq in E. subst s.
    apply isQuote_cases in Hinv as [-> | ->]; discriminate Hw.
  - destruct sc; [contradiction|]. reflexivity.
Qed.

Lemma whitespace_bracketScanFrom (ws : jsstring) :
  forall i st,
    forallb isWhitespace ws = true ->
    escaped (strState st) = false ->
    strInv (strState st) ->
    bracketScanFrom i st ws = st.
Proof.
  induction ws as [|c ws IH]; intros i st H He Hinv; simpl; [reflexivity|].
  simpl in H. apply andb_true_iff in H as [Hc Hws].
  rewrite whitespace_bracketStep by assumption. apply IH; assumption.
Qed.

Lemma bracketStep_agree (i j : Z) (a b : BracketState) (c : char) :
  agree a b -> agree (bracketStep i a c) (bracketStep j b c).
Proof.
  destruct a as [sa qa la ia], b as [sb qb lb ib].
  unfold agree. simpl. intros [-> [-> ->]].
  unfold bracketStep. simpl.
  destruct (escaped qb); simpl; [auto|].
  destruct (char_eqb c Ch.backslash); simpl; [auto|].
  match goal with |- context [if negb ?b then _ else _] => destruct b end;
    simpl; auto.
Qed.

Lemma bracketScanFrom_agree (s : jsstring) :
  forall i j a b,
    agree a b -> agree (bracketScanFrom i a s) (bracketScanFrom j b s).
Proof.
  induction s as [|c s IH]; intros i j a b H; simpl; [exact H|].
  apply IH, bracketStep_agree, H.
Qed.

Lemma agree_appended (a b : BracketState) :
  agree a b -> valueFor a ++ stack a = valueFor b ++ stack b.
Proof.
  unfold agree, valueFor. intros [-> [_ ->]]. reflexivity.
Qed.

Lemma bracketScan_inv (s : jsstring) : strInv (strState (bracketScan s)).
Proof. rewrite bracketScan_strState. apply quoteScan_inv. Qed.

(** The bracket scan of [t ++ ws ++ q] and that of [t ++ q] end in states
    that agree, for blank [ws] after a text with no escape pending. *)
Lemma bracketScan_skip_whitespace (t ws q : jsstring) :
  endsInEscape t = false ->
  forallb isWhitespace ws = true ->
  agree (bracketScan (t ++ ws ++ q)) (bracketScan (t ++ q)).
Proof.
  intros Hesc Hws. unfold bracketScan.
  rewrite !bracketScanFrom_app.
  fold (bracketScan t).
  rewrite (@whitespace_bracketScanFrom ws (0 + len t) (bracketScan t) Hws).
  - apply bracketScanFrom_agree. repeat split.
  - rewrite bracketScan_strState, quoteScan_escaped. exact Hesc.
  - apply bracketScan_inv.
Qed.

(** X10.  Whitespace after a text that does not end in a pending escape
    changes nothing in what the balance appends: the same suffix follows
    the whitespace, which stays in place. *)
Theorem X10_trailing_whitespace_is_kept (cfg : Config) (t ws : jsstring) :
  endsInEscape t = false ->
  forallb isWhitespace ws = true ->
  exists suffix,
    balanced (validateAndBalance cfg t) = t ++ suffix
    /\ balanced (validateAndBalance cfg (t ++ ws)) = t ++ ws ++ suffix.
Proof.
  intros Hesc Hws. destruct t as [|c t].
  - exists []. split; [reflexivity|]. simpl app.
    rewrite blank_validateAndBalance by exact Hws. simpl. rewrite app_nil_r.
    reflexivity.
  - rewrite (@validateAndBalance_balanced_eq cfg (c :: t)) by discriminate.
    rewrite (@validateAndBalance_balanced_eq cfg ((c :: t) ++ ws)) by discriminate.
    cbv zeta.
    assert (Hq : quoteScan (cfg_quoteType cfg) ((c :: t) ++ ws)
                 = quoteScan (cfg_quoteType cfg) (c :: t)).
    { unfold quoteScan at 1. rewrite fold_left_app.
      apply whitespace_quoteScan; [exact Hws|].
      fold (quoteScan (cfg_quoteType cfg) (c :: t)).
      rewrite quoteScan_escaped. exact Hesc. }
    rewrite Hq.
    set (q := if cfg_balanceQuotes cfg
              then quoteFor (quoteScan (cfg_quoteType cfg) (c :: t)) else []).
    exists (q ++ valueFor (bracketScan ((c :: t) ++ q))
              ++ stack (bracketScan ((c :: t) ++ q))).
    split; [reflexivity|].
    rewrite <- !app_assoc. do 3 f_equal.
    apply agree_appended.
    apply (@bracketScan_skip_whitespace (c :: t) ws q Hesc Hws).
Qed.

(** ** Strings and truncated documents *)



Lemma valid_app (a b : jsstring) :
  StructurallyValid a -> StructurallyValid b -> StructurallyValid (a ++ b).
Proof.
  intros Ha Hb.
  induction Ha as [| c s Hc _ IH | q body s Hq Hbody _ IH
                   | inner s Hi _ _ IHs | inner s Hi _ _ IHs ]; simpl.
  - exact Hb.
  - apply valid_plain; assumption.
  - rewrite <- app_assoc. simpl. apply valid_string; assumption.
  - rewrite <- app_assoc. simpl. apply valid_object; assumption.
  - rewrite <- app_assoc. simpl. apply valid_array; assumption.
Qed.

Lemma valid_of_plain (w : jsstring) :
  forallb isPlain w = true -> StructurallyValid w.
Proof.
  induction w as [|c w IH]; intros H; [constructor|].
  simpl in H. apply andb_true_iff in H as [Hc Hw].
  apply valid_plain; auto.
Qed.

Lemma valid_pair (o : char) (inner : jsstring) :
  isOpener o = true ->
  StructurallyValid inner ->
  StructurallyValid (o :: inner ++ [closerOf o]).
Proof.
  intros Ho Hi. unfold isOpener in Ho. apply orb_true_iff in Ho as [Ho | Ho];
    apply char_eqb_eq in Ho; subst o.
  - apply valid_object; [exact Hi | constructor].
  - apply valid_array; [exact Hi | constructor].
Qed.

(** Closing an open document: any closed text, then the pending closers. *)
Lemma open_closed (t : jsstring) (closers : list char) :
  OpenDocument t closers ->
  forall w, StructurallyValid w -> StructurallyValid (t ++ w ++ closers).
Proof.
  induction 1 as [t Ht | t closers o inner _ IH Ho Hi]; intros w Hw.
  - rewrite app_nil_r. apply valid_app; assumption.
  - specialize (IH (o :: (inner ++ w) ++ [closerOf o])
                   (valid_pair _ Ho (valid_app Hi Hw))).
    rewrite <- !app_assoc in *. simpl in *. rewrite <- !app_assoc in IH.
    exact IH.
Qed.

Lemma scan_open (t : jsstring) (closers : list char) :
  OpenDocument t closers ->
  forall stk, fold_left coreStep t (stk, quoteInit) = (closers ++ stk, quoteInit).
Proof.
  induction 1 as [t Ht | t closers o inner _ IH Ho Hi]; intros stk.
  - apply scan_valid, Ht.
  - rewrite fold_left_app, IH. simpl.
    rewrite core_open.
    + apply scan_valid, Hi.
    + unfold isOpener in Ho. apply orb_true_iff in Ho as [Ho | Ho];
        apply char_eqb_eq in Ho; auto.
Qed.

Lemma valueFor_plain (st : BracketState) : forallb isPlain (valueFor st) = true.
Proof. unfold valueFor. destruct (_ && _); reflexivity. Qed.

Lemma structureOf_bracketScan (t : jsstring) (stk : list char) (q : QuoteState) :
  structureOf t = (stk, q) -> stack (bracketScan t) = stk /\ strState (bracketScan t) = q.
Proof.
  intros H. pose proof (bracketScan_core t) as Hc. rewrite H in Hc.
  injection Hc as H1 H2. auto.
Qed.

(** X12.  The balance repairs a truncated document.  When the input is
    well-nested text cut short, outside a string or inside one (after a
    whole character or escape), the output under the default configuration
    is text in which every string and every bracket is closed. *)
Theorem X12_truncated_document_is_repaired (x : jsstring) :
  Truncated x ->
  StructurallyValid (balanced (validateAndBalance DEFAULT_CONFIG x)).
Proof.
  intros Hx. destruct x as [|c0 x']; [constructor|].
  rewrite (@validateAndBalance_balanced_eq DEFAULT_CONFIG (c0 :: x'))
    by discriminate.
  cbv zeta. simpl cfg_balanceQuotes. simpl cfg_quoteType. cbv iota.
  remember (c0 :: x') as x eqn:Ex. clear Ex.
  rewrite <- bracketScan_strState.
  destruct Hx as [t closers Hopen | t closers q body Hopen Hq Hbody].
  - pose proof (scan_open Hopen []) as Hs. rewrite app_nil_r in Hs.
    apply structureOf_bracketScan in Hs as [Hstk Hstr].
    rewrite Hstr. cbn [quoteFor quoteInit inString stringChar app].
    rewrite app_nil_r, Hstk.
    apply (open_closed Hopen), valid_of_plain, valueFor_plain.
  - assert (Hs : structureOf (t ++ q :: body) = (closers, inside q)).
    { rewrite structureOf_app. unfold structureOf at 1.
      rewrite (scan_open Hopen []), app_nil_r. simpl.
      rewrite core_enter by exact Hq. apply scan_body, Hbody. }
    destruct (structureOf_bracketScan _ Hs) as [_ Hstr].
    rewrite Hstr. cbn [quoteFor inside inString stringChar].
    assert (Hs' : structureOf ((t ++ q :: body) ++ [q]) = (closers, quoteInit)).
    { rewrite structureOf_app, Hs. simpl. apply core_leave, Hq. }
    destruct (structureOf_bracketScan _ Hs') as [Hstk _].
    rewrite Hstk.
    set (v := valueFor (bracketScan ((t ++ q :: body) ++ [q]))).
    replace ((t ++ q :: body) ++ [q] ++ v ++ closers)
      with (t ++ (q :: body ++ q :: v) ++ closers)
      by (rewrite <- !app_assoc; simpl; rewrite <- !app_assoc; reflexivity).
    apply (open_closed Hopen).
    apply valid_string; [exact Hq | exact Hbody |].
    apply valid_of_plain, valueFor_plain.
Qed.

(** ** The other methods of the session *)

Section Methods.

Variable jsvalue : Type.
Variable js_null : jsvalue.
Variable JSON_parse : jsstring -> completion jsvalue.

Let Parser := StreamingJsonParser jsvalue.

(** X13.  [reset] forgets the stream and keeps the configuration: right
    after it [getCurrentData] hands back the initial value ([null], or the
    empty string when [returnParsedJson] is off), and the next
    [appendChunk] acts as on a parser just made with that configuration,
    balancing the chunk alone, whatever text and insertions were stored
    before. *)
Theorem X13_reset_starts_over (p : Parser) (chunk : jsstring) :
  let p0 := parserOf (reset js_null p) in
  config p0 = config p
  /\ resultOf (getCurrentData p0)
     = Normal (if cfg_returnParsedJson (config p)
               then Parsed js_null else Text [])
  /\ appendChunk JSON_parse chunk p0
     = appendChunk JSON_parse chunk
         {| config := config p; lastParsedData := js_null;
            lastBalancedString := []; addedDummyValues := [] |}
  /\ lastBalancedString (parserOf (appendChunk JSON_parse chunk p0))
     = balanced (validateAndBalance (config p) chunk).
Proof.
  cbv zeta.
  assert (H0 : parserOf (reset js_null p)
               = {| config := config p; lastParsedData := js_null;
                    lastBalancedString := []; addedDummyValues := [] |})
    by reflexivity.
  rewrite H0. split; [reflexivity|]. split.
  - unfold getCurrentData, bind, get, ret, resultOf. simpl.
    destruct (cfg_returnParsedJson (config p)); reflexivity.
  - split; [reflexivity|].
    destruct (appendChunk_parser JSON_parse
                {| config := config p; lastParsedData := js_null;
                   lastBalancedString := []; addedDummyValues := [] |} chunk)
      as [_ [Ht _]].
    cbv zeta in Ht. rewrite Ht. reflexivity.
Qed.

(** X14.  When [appendChunk] did not fall back (either [returnParsedJson]
    is off, or the decoder accepted the balanced text), it wrote no
    warning, and [getCurrentData] right after it hands back the very same
    result without changing the parser. *)
Theorem X14_getCurrentData_repeats_the_result
  (p : Parser) (chunk : jsstring) :
  cfg_returnParsedJson (config p) = false
  \/ (exists parsed,
         JSON_parse (lastBalancedString (rebalanced p chunk)) = Normal parsed) ->
  let r := appendChunk JSON_parse chunk p in
  warningsOf r = []
  /\ getCurrentData (parserOf r) = (resultOf r, parserOf r, []).
Proof.
  intros H. cbv zeta. rewrite appendChunk_run. cbv zeta.
  unfold getCurrentData, bind, get, ret, resultOf, parserOf, warningsOf.
  destruct (cfg_returnParsedJson (config p)) eqn:Hcfg.
  - destruct H as [H | [parsed H]]; [discriminate|].
    rewrite H. simpl. rewrite Hcfg. auto.
  - simpl. rewrite Hcfg. auto.
Qed.

(** X16.  With [returnParsedJson] on, when the decoder accepts the
    balanced text, [appendChunk] hands back the decoded value, remembers
    it as the last parsed value, stores the balanced text and writes no
    warning. *)
Theorem X16_decode_success_is_returned_and_kept
  (p : Parser) (chunk : jsstring) (parsed : jsvalue) :
  cfg_returnParsedJson (config p) = true ->
  JSON_parse (lastBalancedString (rebalanced p chunk)) = Normal parsed ->
  let r := appendChunk JSON_parse chunk p in
  resultOf r = Normal (Parsed parsed)
  /\ lastParsedData (parserOf r) = parsed
  /\ lastBalancedString (parserOf r) = lastBalancedString (rebalanced p chunk)
  /\ warningsOf r = [].
Proof.
  intros Hcfg Hok. cbv zeta. rewrite appendChunk_run. cbv zeta.
  rewrite Hcfg, Hok. unfold resultOf, parserOf, warningsOf. simpl. auto.
Qed.

(** X15.  Changing the configuration in mid-stream does not lose the
    stream.  After chunks appended to a fresh parser, an [updateConfig],
    and at least one more chunk, the parser holds the balance, under the
    merged configuration, of all the chunks joined: the retraction gives
    back the raw text whatever configuration balanced it. *)
Theorem X15_updateConfig_in_mid_stream
  (cfg update : JsonParserConfig) (before : list jsstring)
  (chunk : jsstring) (after : list jsstring) :
  let p1 := appendChunks JSON_parse (createStreamingParser js_null cfg) before in
  let p2 := parserOf (updateConfig update p1) in
  let p3 := appendChunks JSON_parse p2 (chunk :: after) in
  let merged := mergeConfig (mergeConfig DEFAULT_CONFIG cfg) update in
  let r := validateAndBalance merged
             (List.concat before ++ chunk ++ List.concat after) in
  config p3 = merged
  /\ lastBalancedString p3 = balanced r
  /\ addedDummyValues p3 = dummyValues r.
Proof.
  cbv zeta.
  destruct (@appendChunks_balance _ JSON_parse before
              (createStreamingParser js_null cfg) [] eq_refl eq_refl)
    as [Hc [Ht Hd]].
  set (p1 := appendChunks JSON_parse (createStreamingParser js_null cfg) before) in *.
  simpl app in Ht, Hd.
  change (config (createStreamingParser js_null cfg))
    with (mergeConfig DEFAULT_CONFIG cfg) in *.
  set (p2 := parserOf (updateConfig update p1)).
  assert (Hc2 : config p2 = mergeConfig (mergeConfig DEFAULT_CONFIG cfg) update)
    by (unfold p2, updateConfig, bind, get, set_config, parserOf; simpl;
        rewrite Hc; reflexivity).
  assert (Ht2 : lastBalancedString p2 = lastBalancedString p1) by reflexivity.
  assert (Hd2 : addedDummyValues p2 = addedDummyValues p1) by reflexivity.
  rewrite Ht in Ht2. rewrite Hd in Hd2. clearbody p2.
  unfold appendChunks. simpl fold_left.
  fold (appendChunks JSON_parse (parserOf (appendChunk JSON_parse chunk p2)) after).
  destruct (appendChunk_parser JSON_parse p2 chunk) as [Hc3 [Ht3 Hd3]].
  cbv zeta in Hc3, Ht3, Hd3. unfold rebalanced in Ht3, Hd3. simpl in Ht3, Hd3.
  rewrite (@newInput_of_balance _ p2 _ _ chunk Ht2 Hd2) in Ht3, Hd3.
  rewrite <- Hc3 in Ht3, Hd3.
  destruct (@appendChunks_balance _ JSON_parse after _ _ Ht3 Hd3)
    as [Hc4 [Ht4 Hd4]].
  rewrite Hc3, Hc2 in Hc4, Ht4, Hd4.
  rewrite <- app_assoc in Ht4, Hd4. auto.
Qed.

End Methods.

(** ** The further properties at work *)

Lemma X7_unchanged_iff_closed_witness :
  structurallyClosed (txt "[1, {`k`: `}`}]")
  /\ balanced (validateAndBalance DEFAULT_CONFIG (txt "[1, {`k`: `}`}]"))
     = txt "[1, {`k`: `}`}]".
Proof.
  assert (H : structurallyClosed (txt "[1, {`k`: `}`}]"))
    by (split; vm_compute; reflexivity).
  split; [exact H|].
  exact (proj2 (proj1 (X7_unchanged_iff_closed (txt "[1, {`k`: `}`}]"))) H).
Defined.

Lemma X8_idempotent_without_pending_escape_witness :
  endsInEscape (txt "{`a`: [`x") = false
  /\ validateAndBalance DEFAULT_CONFIG
       (balanced (validateAndBalance DEFAULT_CONFIG (txt "{`a`: [`x")))
     = {| balanced := balanced (validateAndBalance DEFAULT_CONFIG (txt "{`a`: [`x"));
          dummyValues := [] |}.
Proof.
  assert (H : endsInEscape (txt "{`a`: [`x") = false) by reflexivity.
  split; [exact H|].
  exact (X8_idempotent_without_pending_escape (txt "{`a`: [`x") H).
Defined.

Lemma X9_quote_pass_closes_its_string_witness :
  let cfg := {| cfg_balanceQuotes := true; cfg_quoteType := Single;
                cfg_returnParsedJson := false;
                cfg_dummyValues := cfg_dummyValues DEFAULT_CONFIG |} in
  endsInEscape (txt "{'it': 'a `b` c") = false
  /\ quoteScan (cfg_quoteType cfg)
       (balanced (balanceQuotes cfg (txt "{'it': 'a `b` c")))
     = quoteInit.
Proof.
  intros cfg.
  assert (H : endsInEscape (txt "{'it': 'a `b` c") = false) by reflexivity.
  split; [exact H|].
  exact (X9_quote_pass_closes_its_string cfg (txt "{'it': 'a `b` c") H).
Defined.

Lemma X10_trailing_whitespace_is_kept_witness :
  endsInEscape (txt "{`a`:") = false
  /\ forallb isWhitespace (txt "  ") = true
  /\ exists suffix,
      balanced (validateAndBalance DEFAULT_CONFIG (txt "{`a`:"))
      = txt "{`a`:" ++ suffix
      /\ balanced (validateAndBalance DEFAULT_CONFIG (txt "{`a`:" ++ txt "  "))
         = txt "{`a`:" ++ txt "  " ++ suffix.
Proof.
  assert (H1 : endsInEscape (txt "{`a`:") = false) by reflexivity.
  assert (H2 : forallb isWhitespace (txt "  ") = true) by reflexivity.
  split; [exact H1|]. split; [exact H2|].
  exact (X10_trailing_whitespace_is_kept DEFAULT_CONFIG (txt "{`a`:") (txt "  ")
           H1 H2).
Defined.



Lemma sample_truncated : Truncated (txt "{`a`: [1, `x").
Proof.
  assert (H1 : OpenDocument ([] ++ Ch.lbrace :: txt "`a`: ") [Ch.rbrace]).
  { apply (@open_more [] [] Ch.lbrace (txt "`a`: "));
      [apply open_none; constructor | reflexivity |].
    apply (@valid_string Ch.dquote (txt "a") (txt ": ")); [reflexivity | |].
    - apply body_char; [discriminate | discriminate | constructor].
    - apply valid_of_plain. reflexivity. }
  assert (H2 : OpenDocument (([] ++ Ch.lbrace :: txt "`a`: ")
                               ++ Ch.lbracket :: txt "1, ")
                            [Ch.rbracket; Ch.rbrace]).
  { apply (@open_more _ _ Ch.lbracket (txt "1, ") H1); [reflexivity|].
    apply valid_of_plain. reflexivity. }
  apply (@cut_inside _ _ Ch.dquote (txt "x") H2); [reflexivity|].
  apply body_char; [discriminate | discriminate | constructor].
Qed.

Lemma X12_truncated_document_is_repaired_witness :
  Truncated (txt "{`a`: [1, `x")
  /\ balanced (validateAndBalance DEFAULT_CONFIG (txt "{`a`: [1, `x"))
     = txt "{`a`: [1, `x`]}"
  /\ StructurallyValid
       (balanced (validateAndBalance DEFAULT_CONFIG (txt "{`a`: [1, `x"))).
Proof.
  split; [exact sample_truncated|].
  split; [vm_compute; reflexivity|].
  exact (X12_truncated_document_is_repaired sample_truncated).
Defined.

Lemma X14_getCurrentData_repeats_the_result_witness :
  let p := newParser LNull parsingConfig in
  (exists parsed,
      parseLiteral (lastBalancedString (rebalanced p (txt "true"))) = Normal parsed)
  /\ getCurrentData (parserOf (appendChunk parseLiteral (txt "true") p))
     = (resultOf (appendChunk parseLiteral (txt "true") p),
        parserOf (appendChunk parseLiteral (txt "true") p), []).
Proof.
  intros p.
  assert (H : exists parsed,
             parseLiteral (lastBalancedString (rebalanced p (txt "true")))
             = Normal parsed)
    by (exists LTrue; vm_compute; reflexivity).
  split; [exact H|].
  exact (proj2 (@X14_getCurrentData_repeats_the_result _ parseLiteral p
                  (txt "true") (or_intror H))).
Defined.

Lemma X16_decode_success_is_returned_and_kept_witness :
  let chunk := txt "se" in
  let p := parserOf (appendChunk parseLiteral (txt "fal")
                       (newParser LNull parsingConfig)) in
  cfg_returnParsedJson (config p) = true
  /\ parseLiteral (lastBalancedString (rebalanced p chunk)) = Normal LFalse
  /\ resultOf (appendChunk parseLiteral chunk p) = Normal (Parsed LFalse)
  /\ lastParsedData (parserOf (appendChunk parseLiteral chunk p)) = LFalse.
Proof.
  intros chunk p.
  assert (Hcfg : cfg_returnParsedJson (config p) = true) by reflexivity.
  assert (Hok : parseLiteral (lastBalancedString (rebalanced p chunk))
                = Normal LFalse) by (vm_compute; reflexivity).
  destruct (@X16_decode_success_is_returned_and_kept _ parseLiteral p chunk
              LFalse Hcfg Hok) as [Hres [Hkept _]].
  split; [exact Hcfg|]. split; [exact Hok|]. split; [exact Hres | exact Hkept].
Defined.
